(** * Mask composition and index/aggregation cells of the datacube notebooks

    A shallow embedding of the array cells of
    [Matt/chlorophyll_monitoring.ipynb], [Matt/cloud_statistics.ipynb] and
    [Eric/unhas_chlorophyll_monitoring.ipynb]: the good-pixel time-step
    filter, the masked and rescaled bands, the normalised-difference
    indices, the water count and its rolling median, the average NDCI, the
    per-pixel percentage of clear observations, the categorical mask built
    by [enum_to_bool] and the raster mask built by [rasterize].

    Floating-point values are IEEE 754 binary floats as specified by the
    Standard Library's [spec_float]; the arithmetic is generic in the format
    [(prec, emax)] because the dtype of a loaded band is decided by the
    product, and it is instantiated at binary64 for the literals of the
    notebooks.  Arrays over (time, y, x) are nested lists. *)

From Stdlib Require Import ZArith Bool.
From Stdlib Require Import Floats.SpecFloat.
From stdpp Require Import base list sorting gmap strings sets.

Set Default Proof Using "Type".

(** ** numpy scalar semantics *)

Module Np.

Abbreviation float := spec_float.

Definition nan : float := S754_nan.
Definition pinf : float := S754_infinity false.
Definition ninf : float := S754_infinity true.

Definition isnan (x : float) : bool :=
  match x with S754_nan => true | _ => false end.

Definition notnan (x : float) : bool := negb (isnan x).

Definition isinf (x : float) : bool :=
  match x with S754_infinity _ => true | _ => false end.

Definition iszero (x : float) : bool :=
  match x with S754_zero _ => true | _ => false end.

(** Sign bit; [false] for NaN, which carries no sign here. *)
Definition signbit (x : float) : bool :=
  match x with
  | S754_zero s | S754_infinity s | S754_finite s _ _ => s
  | S754_nan => false
  end.

(** Comparisons never depend on the format. [x >= y], [x > y], [x <= y],
    [x == y]; every comparison with NaN is [false]. *)
Definition greater_equal (x y : float) : bool := SFleb y x.
Definition greater (x y : float) : bool := SFltb y x.
Definition less_equal (x y : float) : bool := SFleb x y.
Definition equal (x y : float) : bool := SFeqb x y.

Section Format.
Variables prec emax : Z.

(** Conversion of an integer (int16 band value, int64 count, Python
    int) to the float format, rounding to nearest even. *)
Definition of_int (z : Z) : float := binary_normalize prec emax z 0 false.

Definition add : float → float → float := SFadd prec emax.
Definition subtract : float → float → float := SFsub prec emax.
Definition multiply : float → float → float := SFmul prec emax.
Definition true_divide : float → float → float := SFdiv prec emax.

(** A decimal literal [n/d] (such as [0.0001] or [0.5]): the float
    nearest to the quotient of the two integers. *)
Definition ratio (n d : Z) : float := true_divide (of_int n) (of_int d).
End Format.

(** Additions over given terms.  [np.sum] adds the elements of an array
    pairwise in blocks and dask adds the sums of the chunks, so the order
    and the grouping of the additions of a sum are the library's; a sum is
    described by the additions that produce it. *)
Inductive additions : Type :=
  | term (x : float)
  | plus (l r : additions).

Fixpoint terms (t : additions) : list float :=
  match t with
  | term x => [x]
  | plus l r => terms l ++ terms r
  end.

Section Sum.
Variables prec emax : Z.

Fixpoint total (t : additions) : float :=
  match t with
  | term x => x
  | plus l r => add prec emax (total l) (total r)
  end.

(** [s] is a sum of [vs]: the total of additions whose terms are the
    elements of [vs], each once and in any order, and any number of [0.0]
    (the value a reduction starts from). *)
Definition is_sum (vs : list float) (s : float) : Prop :=
  ∃ t k, terms t ≡ₚ vs ++ replicate k (S754_zero false) ∧ total t = s.

(** What is known of [np.sum] as a function of the flattened array. *)
Definition summation (np_sum : list float → float) : Prop :=
  ∀ vs, is_sum vs (np_sum vs).

(** The sum from [0.0] in the order of the elements, which is [np.sum] on
    fewer than 8 elements. *)
Definition sum_in_order (vs : list float) : float :=
  foldl (add prec emax) (S754_zero false) vs.
End Sum.

End Np.

Import Np.

(** A Python call either returns or raises an exception of a class. *)
Inductive result (A : Type) :=
  | Ok (a : A)
  | Raised (exc_class : string).
Arguments Ok {A}.
Arguments Raised {A}.

(** Python's [n / d] on two [int]: the binary64 number nearest to the exact
    quotient (one rounding, whatever the size of the integers), with the
    sign of the quotient also when it is zero; [ZeroDivisionError] on a
    zero divisor and [OverflowError] when the quotient is too large. *)
Definition int_true_divide (n d : Z) : result float :=
  match n, d with
  | _, Z0 => Raised "ZeroDivisionError"
  | Z0, Zpos _ => Ok (S754_zero false)
  | Z0, Zneg _ => Ok (S754_zero true)
  | _, _ =>
      let '(q, e, l) :=
        SFdiv_core_binary 53 1024 (Z.abs n) 0 (Z.abs d) 0 in
      match binary_round_aux 53 1024 (xorb (n <? 0)%Z (d <? 0)%Z) q e l with
      | S754_infinity _ => Raised "OverflowError"
      | x => Ok x
      end
  end.

(** ** xarray containers *)

Module Xr.

Abbreviation image A := (list (list A)).
Abbreviation cube A := (list (list (list A))).

(** Positional read of one pixel, [a[t, y, x]]. *)
Definition at2 {A} (a : image A) (y x : nat) : option A :=
  row ← a !! y; row !! x.
Definition at3 {A} (a : cube A) (t y x : nat) : option A :=
  img ← a !! t; at2 img y x.

(** Element-wise operations on arrays of one shape. *)
Definition map2 {A B : Type} (f : A → B) (a : image A) : image B :=
  fmap (M:=list) (fmap (M:=list) f) a.
Definition map3 {A B : Type} (f : A → B) (a : cube A) : cube B :=
  fmap (M:=list) (map2 f) a.
Definition zip2 {A B C : Type} (f : A → B → C)
    (a : image A) (b : image B) : image C :=
  zip_with (zip_with f) a b.
Definition zip3 {A B C : Type} (f : A → B → C)
    (a : cube A) (b : cube B) : cube C :=
  zip_with (zip2 f) a b.

(** [a.where(cond)]: keep the value where [cond] holds, NaN elsewhere. *)
Definition where_ (cond : bool) (v : float) : float :=
  if cond then v else nan.

(** A boolean [DataArray] over (time, y, x).  [shape_y] and [shape_x] are
    [a.shape[1]] and [a.shape[2]]; the length of the time axis is the
    length of [values]. *)
Record DataArray (A : Type) := mkDataArray {
  shape_y : nat;
  shape_x : nat;
  values : cube A
}.
Arguments mkDataArray {A}.
Arguments shape_y {A}.
Arguments shape_x {A}.
Arguments values {A}.

(** Every time slice has [shape_y] rows of [shape_x] pixels. *)
Definition well_shaped {A} (a : DataArray A) : Prop :=
  Forall (λ img : image A,
    length img = shape_y a ∧ Forall (λ row, length row = shape_x a) img)
    (values a).

(** A [Dataset]: the time coordinate and the data variables by name, all
    over the same (time, y, x) grid. *)
Record Dataset (A : Type) := mkDataset {
  time : list Z;
  data_vars : gmap string (cube A)
}.
Arguments mkDataset {A}.
Arguments time {A}.
Arguments data_vars {A}.

(** All variables share the time axis of the dataset. *)
Definition shares_time {A} (ds : Dataset A) : Prop :=
  ∀ name c, data_vars ds !! name = Some c → length c = length (time ds).

Definition b2z (b : bool) : Z := if b then 1%Z else 0%Z.

Definition sum_list (l : list Z) : Z := foldr Z.add 0%Z l.

(** [img.sum()] of a boolean image over both spatial axes: the number of
    [True] pixels, an int64. *)
Definition sum_yx (img : image bool) : Z :=
  sum_list ((λ row, sum_list (b2z <$> row)) <$> img).

(** Boolean-array indexing along one axis: the elements at the positions
    where [keep] is [True], in their order. *)
Fixpoint compress {A} (keep : list bool) (xs : list A) : list A :=
  match keep, xs with
  | k :: keep', x :: xs' =>
      if k then x :: compress keep' xs' else compress keep' xs'
  | _, _ => []
  end.

(** [a.sel(time=keep)] with a boolean [keep]: an indexer whose length is
    not that of the time axis is an [IndexError], here [None]. *)
Definition sel_time {A} (keep : list bool) (a : DataArray A)
    : option (DataArray A) :=
  if decide (length keep = length (values a))
  then Some (mkDataArray (shape_y a) (shape_x a) (compress keep (values a)))
  else None.

Definition ds_sel_time {A} (keep : list bool) (ds : Dataset A)
    : option (Dataset A) :=
  if decide (length keep = length (time ds))
  then Some (mkDataset (compress keep (time ds))
                       (compress keep <$> data_vars ds))
  else None.

(** [a.sum(dim='time')] of a boolean array: per pixel, the number of time
    steps at which it is [True]. *)
Definition sum_time (a : DataArray bool) : image Z :=
  foldr (λ img acc, zip2 Z.add (map2 b2z img) acc)
        (replicate (shape_y a) (replicate (shape_x a) 0%Z))
        (values a).

End Xr.

Import Xr.

(** ** Band indices ([chlorophyll_monitoring], cell "MNDWI / NDCI") *)

Module Indices.
Section Format.
Variables prec emax : Z.

(** [(A - B) / (A + B)], the expression of both index assignments. *)
Definition normalized_difference (a b : float) : float :=
  true_divide prec emax (subtract prec emax a b) (add prec emax a b).

(** [ds_s2['MNDWI'] = (green - swir_2) / (green + swir_2)] *)
Definition MNDWI (green swir_2 : cube float) : cube float :=
  zip3 normalized_difference green swir_2.

(** [ds_s2['NDCI'] = (red_edge_1 - red) / (red_edge_1 + red)] *)
Definition NDCI (red_edge_1 red : cube float) : cube float :=
  zip3 normalized_difference red_edge_1 red.
End Format.
End Indices.

(** ** Cleaning cells ([chlorophyll_monitoring] and
       [unhas_chlorophyll_monitoring], "Mask of valid pixels" and "Apply
       valid mask, good pixel mask, and scaling to each layer") *)

Module Cleaning.
Section Format.
Variables prec emax : Z.

(** One entry of [data_perc]: [img.sum() / (shape[1] * shape[2])]. *)
Definition good_fraction (shape_y shape_x : nat) (img : image bool)
    : float :=
  true_divide prec emax (of_int prec emax (sum_yx img))
              (of_int prec emax (Z.of_nat (shape_y * shape_x))).

(** [data_perc = good_pixel_mask.sum(axis=[1,2])
                 / (good_pixel_mask.shape[1]*good_pixel_mask.shape[2])] *)
Definition data_perc (good_pixel_mask : DataArray bool) : list float :=
  good_fraction (shape_y good_pixel_mask) (shape_x good_pixel_mask)
    <$> values good_pixel_mask.

(** [keep = (data_perc >= min_gooddata)] *)
Definition keep (min_gooddata : float) (good_pixel_mask : DataArray bool)
    : list bool :=
  (λ p, greater_equal p min_gooddata) <$> data_perc good_pixel_mask.

(** "Drop low quality time slices":
    [ds_s2 = ds_s2.sel(time=keep)] and
    [good_pixel_mask = good_pixel_mask.sel(time=keep)]. *)
Definition drop_low_quality {A} (min_gooddata : float)
    (ds_s2 : Dataset A) (good_pixel_mask : DataArray bool)
    : option (Dataset A * DataArray bool) :=
  let keep := keep min_gooddata good_pixel_mask in
  ds_s2' ← ds_sel_time keep ds_s2;
  good_pixel_mask' ← sel_time keep good_pixel_mask;
  Some (ds_s2', good_pixel_mask').

(** One pixel of
    [band.where(valid_mask[band] & good_pixel_mask) * scale + offset];
    [where] turns the integer band into floats. *)
Definition clean_pixel (scale offset : float) (v : Z) (valid good : bool)
    : float :=
  add prec emax
    (multiply prec emax (where_ (valid && good) (of_int prec emax v)) scale)
    offset.

Definition clean_band (scale offset : float) (band : cube Z)
    (valid_mask good_pixel_mask : cube bool) : cube float :=
  zip3 (λ v c, add prec emax
                 (multiply prec emax (where_ c (of_int prec emax v)) scale)
                 offset)
       band (zip3 andb valid_mask good_pixel_mask).
End Format.

(** The literals of the cell, in binary64. *)
Definition scale : float := ratio 53 1024 1 10000.
Definition offset : float := of_int 53 1024 0.
End Cleaning.

(** ** Per-pixel percentage of clear observations ([cloud_statistics],
       "Valid & clear pixel counts (temporal aggregation)") *)

Module CloudStatistics.
Section Format.
Variables prec emax : Z.

(** One pixel of [100.0 * clear_sum / valid_sum]. *)
Definition percentage (clear_sum valid_sum : Z) : float :=
  true_divide prec emax
    (multiply prec emax (of_int prec emax 100) (of_int prec emax clear_sum))
    (of_int prec emax valid_sum).

(** One pixel of [percentage_clear.where(percentage_clear <= 100.0)]. *)
Definition guard (p : float) : float :=
  where_ (less_equal p (of_int prec emax 100)) p.

Definition percentage_clear (clear_mask valid_mask : DataArray bool)
    : image float :=
  let valid_sum := sum_time valid_mask in
  let clear_sum := sum_time clear_mask in
  let percentage_clear := zip2 percentage clear_sum valid_sum in
  map2 guard percentage_clear.
End Format.
End CloudStatistics.

(** ** Water area and average NDCI ([chlorophyll_monitoring], "Water
       pixels", "Total water area" and "Average NDCI") *)

Module Rolling.
Section Format.
Variables prec emax : Z.

(** Ascending sort of NaN-free values. *)
Fixpoint insert_sorted (x : float) (l : list float) : list float :=
  match l with
  | [] => [x]
  | y :: l' => if less_equal x y then x :: l else y :: insert_sorted x l'
  end.

Definition sort (l : list float) : list float := foldr insert_sorted [] l.

(** Median of NaN-free values the way [np.nanmedian] takes it along an
    axis: the values are sorted, the lower and the upper middle value (one
    and the same value for an odd number of values) are summed from [0.0],
    and the sum is divided by 2; NaN when there is no value. *)
Definition median (vs : list float) : float :=
  let s := sort vs in
  let n := length s in
  match s !! ((n - 1) / 2), s !! (n / 2) with
  | Some low, Some high =>
      true_divide prec emax
        (add prec emax (add prec emax (of_int prec emax 0) low) high)
        (of_int prec emax 2)
  | _, _ => nan
  end.

(** [nanmedian]: the median of the values that are not NaN. *)
Definition nanmedian (win : list float) : float :=
  median (filter (λ v, notnan v = true) win).

(** Number of values of a window that are not NaN. *)
Definition count_notnan (win : list float) : nat :=
  length (filter (λ v, notnan v = true) win).

(** [center=True]: the series is padded with [window // 2] NaN before
    and [window - 1 - window // 2] NaN after. *)
Definition pad (window : nat) (xs : list float) : list float :=
  replicate (window / 2) nan ++ xs ++ replicate (window - 1 - window / 2) nan.

(** One window of [window] consecutive padded values per time step. *)
Definition construct (window : nat) (xs : list float) : list (list float) :=
  (λ i, take window (drop i (pad window xs))) <$> seq 0 (length xs).

(** [xs.rolling(time=window, center=True, min_periods=min_periods)
       .median(skipna=True)] on a dask-backed series, as the notebooks
    have it: a window or a [min_periods] that is not positive is refused
    with [ValueError] when the rolling object is made, a series without
    any time step has no window to take and raises [ValueError] too, and
    otherwise the result is the reduction of each window, kept
    [where(counts >= min_periods)]. *)
Definition rolling_median (window min_periods : nat) (xs : list float)
    : result (list float) :=
  if decide (window = 0) then Raised "ValueError"
  else if decide (min_periods = 0) then Raised "ValueError"
  else if decide (length xs = 0) then Raised "ValueError"
  else Ok ((λ win, where_ (bool_decide (min_periods ≤ count_notnan win))
                          (nanmedian win))
             <$> construct window xs).
End Format.
End Rolling.

Module Water.
Section Format.
Variables prec emax : Z.
Variable np_sum : list float → float.

(** One pixel of a variable of [ds_s2.where(ds_s2.MNDWI > 0.0)]. *)
Definition water_pixel (mndwi v : float) : float :=
  where_ (greater mndwi (of_int prec emax 0)) v.

(** One time slice of a variable of [ds_s2_water]. *)
Definition ds_s2_water (mndwi var : image float) : image float :=
  zip2 water_pixel mndwi var.

(** [a.count(dim=["x", "y"])]: the number of pixels that are not NaN. *)
Definition count (img : image float) : Z :=
  Z.of_nat (length (filter (λ v, notnan v = true) (concat img))).

(** [a.mean(dim=["x", "y"], skipna=True)]: the sum of the pixels with NaN
    replaced by [0.0], over the number of pixels that are not NaN; NaN
    ([0/0]) when there is none.  The summation [np_sum] is the library's. *)
Definition mean_skipna (img : image float) : float :=
  true_divide prec emax
    (np_sum ((λ v, if isnan v then S754_zero false else v) <$> concat img))
    (of_int prec emax (count img)).

(** [ds_s2_watercount = ds_s2_water.MNDWI.count(dim=["x", "y"])], one
    time slice. *)
Definition ds_s2_watercount (mndwi : image float) : Z :=
  count (ds_s2_water mndwi mndwi).

(** [average_ndci = ds_s2_water.NDCI.mean(dim=["x", "y"], skipna=True)],
    one time slice. *)
Definition average_ndci (mndwi ndci : image float) : float :=
  mean_skipna (ds_s2_water mndwi ndci).

(** [waterarea = ds_s2_watercount.rolling(time=3, center=True,
    min_periods=1).median(skipna=True) * area_per_pixel] *)
Definition waterarea (area_per_pixel : float) (mndwi : cube float)
    : result (list float) :=
  match Rolling.rolling_median prec emax 3 1
          ((λ img, of_int prec emax (ds_s2_watercount img)) <$> mndwi) with
  | Raised e => Raised e
  | Ok median => Ok ((λ m, multiply prec emax m area_per_pixel) <$> median)
  end.
End Format.

(** The co-located (MNDWI, NDCI) values of one time slice, row by row. *)
Definition pixels (mndwi ndci : image float) : list (float * float) :=
  concat (zip2 pair mndwi ndci).
End Water.

(** ** Library calls of the notebooks that can raise *)

(** [odc.algo.enum_to_bool(mask, categories)].  The notebooks import the
    function (the import cell of [cloud_statistics] cites
    [odc/algo/_masking.py]); this is the behaviour of the library for a
    band with one flag, as [fmask] is.  [flag_values] is the [values]
    dictionary (code to label) of the flag, its items in their order. *)
Module Odc.

(** [set(values.values())] *)
Definition labels (flag_values : list (Z * string)) : gset string :=
  list_to_set (flag_values.*2).

(** [v2n = {n: int(v) for v, n in values.items()}]: a later item replaces an
    earlier one with the same label. *)
Definition v2n (flag_values : list (Z * string)) : gmap string Z :=
  foldl (λ m vn, <[vn.2 := vn.1]> m) ∅ flag_values.

(** [_get_enum_values(names, flags_definition)]: [ValueError] unless every
    name is a label, else [tuple(v2n[n] for n in names)]. *)
Definition get_enum_values (flag_values : list (Z * string))
    (names : list string) : result (list Z) :=
  let unmatched : gset string := list_to_set names ∖ labels flag_values in
  if decide (unmatched = ∅)
  then Ok (omap (λ n, v2n flag_values !! n) names)
  else Raised "ValueError".

(** The mask of the expression [where((m==c1) | (m==c2) | ..., True,
    False)]; without any class the expression has no condition and its
    evaluation raises [TypeError]. *)
Definition enum_to_mask (mask : cube Z) (classes : list Z)
    : result (cube bool) :=
  match classes with
  | [] => Raised "TypeError"
  | _ => Ok (map3 (λ px, bool_decide (px ∈ classes)) mask)
  end.

(** The labels are looked up only [if len(categories) > 0]. *)
Definition enum_to_bool (flag_values : list (Z * string)) (mask : cube Z)
    (categories : list string) : result (cube bool) :=
  match categories with
  | [] => enum_to_mask mask []
  | _ =>
      match get_enum_values flag_values categories with
      | Raised e => Raised e
      | Ok classes => enum_to_mask mask classes
      end
  end.

End Odc.

(** [rasterio.features.rasterize(shapes, out_shape, transform)], imported
    by [unhas_chlorophyll_monitoring], with the defaults [fill=0],
    [all_touched=False] and replacing merge; this is the behaviour of the
    library: an [out_shape] with a zero side raises [ValueError], and
    otherwise every pixel holds the fill or the value of the last shape
    that burns it.  Without any shape to burn the releases differ: before
    1.4 the call raises [ValueError], from 1.4 it returns the fill; the
    notebooks pin no release, so the release is a parameter.  Which pixels
    a geometry burns under a transform is the rule of the rasterizer and is
    a parameter too; the geometries are the valid ones. *)
Module Rio.

Inductive release := before_1_4 | from_1_4.

Section Rasterizer.
Variables geometry affine : Type.
Variable burns : affine → geometry → nat → nat → bool.

(** The value burnt into pixel [(y, x)]: the fill, overwritten by every
    shape that covers the pixel, in order. *)
Definition burn (transform : affine) (shapes : list (geometry * Z))
    (y x : nat) : Z :=
  foldl (λ acc s, if burns transform s.1 y x then s.2 else acc) 0%Z shapes.

Definition rasterize (rasterio : release) (shapes : list (geometry * Z))
    (out_shape : nat * nat) (transform : affine) : result (image Z) :=
  match shapes, rasterio with
  | [], before_1_4 => Raised "ValueError"
  | _, _ =>
      if decide (out_shape.1 `min` out_shape.2 = 0)
      then Raised "ValueError"
      else Ok ((λ y, (λ x, burn transform shapes y x) <$> seq 0 out_shape.2)
                 <$> seq 0 out_shape.1)
  end.

(** [rasterize(((feature['geometry'], 1) for feature in
    shp.iterfeatures()), out_shape=(dims['y'], dims['x']),
    transform=ds.affine)] *)
Definition raster_mask (rasterio : release) (shp : list geometry)
    (dims_y dims_x : nat) (transform : affine) : result (image Z) :=
  rasterize rasterio ((λ g, (g, 1%Z)) <$> shp) (dims_y, dims_x) transform.
End Rasterizer.
End Rio.

(** ** Vocabulary of the statements *)

(** [x] is NaN or carries the sign bit [s]. *)
Definition has_sign (s : bool) (x : float) : Prop :=
  match x with
  | S754_nan => True
  | S754_zero s' | S754_infinity s' | S754_finite s' _ _ => s' = s
  end.

(** The positions of [True] in a boolean vector, counted from [k]. *)
Fixpoint true_positions (k : nat) (keep : list bool) : list nat :=
  match keep with
  | [] => []
  | b :: keep' =>
      if b then k :: true_positions (S k) keep' else true_positions (S k) keep'
  end.

(** The elements of [xs] at the positions [idxs], in the order of [idxs]. *)
Definition take_at {A} (idxs : list nat) (xs : list A) : list A :=
  omap (λ i, xs !! i) idxs.

(** The samples of [xs] that a centred window of size [window] at position
    [i] covers: the positions from [i - window/2], [window] of them, that
    exist in the series. *)
Definition centred_window {A} (window : nat) (xs : list A) (i : nat) : list A :=
  take (i + (window - window / 2) - (i - window / 2))
       (drop (i - window / 2) xs).

(** Number of time steps at which pixel [(y, x)] of a boolean cube is
    [True]. *)
Definition count_true_at (m : cube bool) (y x : nat) : Z :=
  sum_list ((λ img, b2z (default false (at2 img y x))) <$> m).

(** ** Date helpers ([chlorophyll_monitoring] and
       [unhas_chlorophyll_monitoring], "closest_date" and "date_index") *)

(** Dates are [datetime64[ns]] values: int64 counts of nanoseconds, the
    least int64 being NaT ("not a time"). *)
Module Dates.

Definition NaT : Z := (- 2 ^ 63)%Z.

Definition wrap64 (z : Z) : Z := ((z + 2 ^ 63) mod 2 ^ 64 - 2 ^ 63)%Z.

(** [x - d], a [timedelta64[ns]]: NaT if either date is, else the int64
    difference. *)
Definition sub (x d : Z) : Z :=
  if decide (x = NaT ∨ d = NaT) then NaT else wrap64 (x - d).

(** [abs] of a timedelta; the absolute value of NaT is NaT. *)
Definition abs (v : Z) : Z := if decide (v = NaT) then NaT else Z.abs v.

(** [a < b] on timedeltas and [a == b] on dates: false when either side
    is NaT. *)
Definition lt (a b : Z) : bool :=
  bool_decide (a ≠ NaT ∧ b ≠ NaT ∧ (a < b)%Z).
Definition eq (a b : Z) : bool :=
  bool_decide (a ≠ NaT ∧ b ≠ NaT ∧ a = b).

(** The key of [closest_date]: [abs(x - np.datetime64(desired_date))]. *)
Definition distance (desired_date x : Z) : Z := abs (sub x desired_date).

(** [min(iterable, key=key)] after its first element: a later element
    replaces the best one only when its key is strictly smaller. *)
Fixpoint min_by (key : Z → Z) (best : Z) (rest : list Z) : Z :=
  match rest with
  | [] => best
  | x :: rest' => min_by key (if lt (key x) (key best) then x else best) rest'
  end.

(** [def closest_date(list_of_dates, desired_date):
       return min(list_of_dates, key=lambda x: abs(x - desired_date))];
    [min] of an empty sequence raises [ValueError]. *)
Definition closest_date (list_of_dates : list Z) (desired_date : Z)
    : result Z :=
  match list_of_dates with
  | [] => Raised "ValueError"
  | x :: rest => Ok (min_by (distance desired_date) x rest)
  end.

(** [def date_index(list_of_dates, known_date):
       return np.where(list_of_dates == known_date)[0][0]];
    indexing an empty array of positions raises [IndexError]. *)
Definition date_index (list_of_dates : list Z) (known_date : Z)
    : result nat :=
  match true_positions 0 ((λ x, eq x known_date) <$> list_of_dates) with
  | [] => Raised "IndexError"
  | i :: _ => Ok i
  end.

End Dates.

(** ** The clearest time slices ([unhas_chlorophyll_monitoring], second
       notebook, "Time series display") *)

Module Clearest.

(** [num_clear_pix = good_pixel_mask.sum(['x','y'])] *)
Definition num_clear_pix (good_pixel_mask : DataArray bool) : list Z :=
  sum_yx <$> values good_pixel_mask.

(** [pix_thr = np.sort(num_clear_pix)[-4]]: the fourth largest count; the
    index [-4] is out of bounds on fewer than four values. *)
Definition pix_thr (num_clear_pix : list Z) : result Z :=
  let sorted := merge_sort Z.le num_clear_pix in
  if decide (4 ≤ length sorted)
  then match sorted !! (length sorted - 4) with
       | Some v => Ok v
       | None => Raised "IndexError"
       end
  else Raised "IndexError".

(** [clearest_ind = (num_clear_pix >= pix_thr)] *)
Definition clearest_ind (num_clear_pix : list Z) (pix_thr : Z) : list bool :=
  (λ c, bool_decide (pix_thr ≤ c)%Z) <$> num_clear_pix.

(** The two cells: the threshold, the boolean indexer and
    [data = data.isel(time=clearest_ind)]. *)
Definition select {A} (data : Dataset A) (good_pixel_mask : DataArray bool)
    : result (Dataset A) :=
  let counts := num_clear_pix good_pixel_mask in
  match pix_thr counts with
  | Raised e => Raised e
  | Ok thr =>
      match ds_sel_time (clearest_ind counts thr) data with
      | Some data' => Ok data'
      | None => Raised "IndexError"
      end
  end.

End Clearest.

(** ** Applying the raster mask ([unhas_chlorophyll_monitoring],
       "Masking") *)

Module Masking.

(** One time slice of a variable of [ds.where(mask)] for the integer raster
    mask over (y, x): the value where the mask is non-zero, NaN elsewhere. *)
Definition where_mask (mask : image Z) (img : image float) : image float :=
  zip2 (λ c v, where_ (negb (Z.eqb c 0)) v) mask img.

(** The mask has no time axis and applies to every time slice. *)
Definition apply_mask (mask : image Z) (var : cube float) : cube float :=
  where_mask mask <$> var.

End Masking.

(** ** Tabular results ([cloud_statistics], "Valid pixel mask" and "Tabular
       results for each date") *)

Module CloudTable.

(** [valid_mask = data_valid_mask['nbart_red'] & data_valid_mask['nbart_green']
                  & data_valid_mask['nbart_blue'] & data_valid_mask['oa_fmask']] *)
Definition valid_mask (nbart_red nbart_green nbart_blue oa_fmask : cube bool)
    : cube bool :=
  zip3 andb (zip3 andb (zip3 andb nbart_red nbart_green) nbart_blue) oa_fmask.

(** [count_valid = valid_mask.sum(dim=['x','y']).values], and the same for
    [count_clear]. *)
Definition count (mask : cube bool) : list Z := sum_yx <$> mask.

Section Format.
Variables prec emax : Z.

(** [(percentage_clear == 0).sum()]: the number of pixels whose percentage
    compares equal to zero. *)
Definition no_clear_data (percentage_clear : image float) : Z :=
  sum_list ((λ p, b2z (equal p (of_int prec emax 0)))
              <$> concat percentage_clear).
End Format.

End CloudTable.

(** ** Dates of the extreme NDCI ([chlorophyll_monitoring], "NDCI plots") *)

Module Extremes.

(** [np.argmin] scanning after its first element: a later value replaces the
    best one when it is not [>=] it, and the scan stops on a NaN. *)
Fixpoint argmin_from (best_i : nat) (best : float) (i : nat)
    (xs : list float) : nat :=
  match xs with
  | [] => best_i
  | x :: xs' =>
      if isnan best then best_i
      else if negb (greater_equal x best) then argmin_from i x (S i) xs'
      else argmin_from best_i best (S i) xs'
  end.

Fixpoint argmax_from (best_i : nat) (best : float) (i : nat)
    (xs : list float) : nat :=
  match xs with
  | [] => best_i
  | x :: xs' =>
      if isnan best then best_i
      else if negb (less_equal x best) then argmax_from i x (S i) xs'
      else argmax_from best_i best (S i) xs'
  end.

(** [np.nanargmin(a)]: NaN is replaced by +infinity; an empty or all-NaN
    array raises [ValueError]; otherwise the position of the first
    minimum. *)
Definition nanargmin (a : list float) : result nat :=
  if forallb isnan a then Raised "ValueError"
  else match (λ x, if isnan x then pinf else x) <$> a with
       | [] => Raised "ValueError"
       | x :: xs => Ok (argmin_from 0 x 1 xs)
       end.

(** [np.nanargmax(a)]: the same with -infinity and the first maximum. *)
Definition nanargmax (a : list float) : result nat :=
  if forallb isnan a then Raised "ValueError"
  else match (λ x, if isnan x then ninf else x) <$> a with
       | [] => Raised "ValueError"
       | x :: xs => Ok (argmax_from 0 x 1 xs)
       end.

(** [ndci_dates[np.nanargmin(average_ndci.values)]]; an index past the end
    raises [IndexError]. *)
Definition date_at (ndci_dates : list Z) (i : result nat) : result Z :=
  match i with
  | Raised e => Raised e
  | Ok i => match ndci_dates !! i with
            | Some d => Ok d
            | None => Raised "IndexError"
            end
  end.

Definition min_ndci_date (ndci_dates : list Z) (average_ndci : list float)
    : result Z :=
  date_at ndci_dates (nanargmin average_ndci).

Definition max_ndci_date (ndci_dates : list Z) (average_ndci : list float)
    : result Z :=
  date_at ndci_dates (nanargmax average_ndci).

End Extremes.

(** The two scalar series over time of [chlorophyll_monitoring]:
    [ds_s2_watercount] and [average_ndci], one entry per time slice. *)
Module Series.
Section Format.
Variables prec emax : Z.
Variable np_sum : list float → float.

Definition watercount (mndwi : cube float) : list Z :=
  Water.ds_s2_watercount prec emax <$> mndwi.

Definition average_ndci (mndwi ndci : cube float) : list float :=
  zip_with (Water.average_ndci prec emax np_sum) mndwi ndci.
End Format.
End Series.

(** [area_per_pixel = pixel_length**2 / m_per_km**2] with
    [m_per_km = 1000]: a true division of two Python integers. *)
Definition area_per_pixel (pixel_length : Z) : result float :=
  int_true_divide (pixel_length ^ 2) (1000 ^ 2).

(** The order of the values that are not NaN, as a key compared
    lexicographically: -infinity, the negative numbers, the zeros, the
    positive numbers, +infinity. *)
Definition order_key (x : float) : Z * Z * Z :=
  match x with
  | S754_infinity true => (-2, 0, 0)%Z
  | S754_finite true m e => (-1, - e, Z.neg m)%Z
  | S754_zero _ => (0, 0, 0)%Z
  | S754_finite false m e => (1, e, Z.pos m)%Z
  | S754_infinity false => (2, 0, 0)%Z
  | S754_nan => (3, 0, 0)%Z
  end.

Definition key_lt (a b : Z * Z * Z) : Prop :=
  (a.1.1 < b.1.1
   ∨ (a.1.1 = b.1.1 ∧ (a.1.2 < b.1.2 ∨ (a.1.2 = b.1.2 ∧ a.2 < b.2))))%Z.

(** A date whose distance to [desired_date] is computed without NaT and
    without int64 overflow. *)
Definition comparable (desired_date x : Z) : Prop :=
  x ≠ Dates.NaT ∧ desired_date ≠ Dates.NaT
  ∧ (Z.abs (x - desired_date) < 2 ^ 63)%Z.

(** A number that is not negative: not NaN and with a clear sign bit
    (+infinity included). *)
Definition nonneg (x : float) : Prop := isnan x = false ∧ has_sign false x.


(** A pixel, as its (MNDWI, NDCI) pair, that enters the average NDCI. *)
Definition contributes (prec emax : Z) (p : float * float) : Prop :=
  greater p.1 (of_int prec emax 0) = true ∧ notnan p.2 = true.

(** The scan shared by [argmin] and [argmax]: [better x best] says when a
    later value replaces the best one. *)
Fixpoint scan_from (better : float → float → bool) (best_i : nat)
    (best : float) (i : nat) (xs : list float) : nat :=
  match xs with
  | [] => best_i
  | x :: xs' =>
      if isnan best then best_i
      else if better x best then scan_from better i x (S i) xs'
      else scan_from better best_i best (S i) xs'
  end.

(** ** Pointwise reads of element-wise arrays *)

Lemma at2_zip2 {A B C} (f : A → B → C) (a : image A) (b : image B) y x :
  at2 (zip2 f a b) y x = (u ← at2 a y x; v ← at2 b y x; Some (f u v)).
Proof.
  unfold at2, zip2. rewrite lookup_zip_with.
  destruct (a !! y) as [ra|]; simpl; [|done].
  destruct (b !! y) as [rb|]; simpl.
  - rewrite lookup_zip_with. done.
  - by destruct (ra !! x).
Qed.

Lemma at3_zip3 {A B C} (f : A → B → C) (a : cube A) (b : cube B) t y x :
  at3 (zip3 f a b) t y x = (u ← at3 a t y x; v ← at3 b t y x; Some (f u v)).
Proof.
  unfold at3, zip3. rewrite lookup_zip_with.
  destruct (a !! t) as [ia|]; simpl; [|done].
  destruct (b !! t) as [ib|]; simpl.
  - apply at2_zip2.
  - by destruct (at2 ia y x).
Qed.

Lemma at2_map2 {A B} (f : A → B) (a : image A) y x :
  at2 (map2 f a) y x = f <$> at2 a y x.
Proof.
  unfold at2, map2. rewrite list_lookup_fmap.
  destruct (a !! y) as [ra|]; simpl; [|done].
  by rewrite list_lookup_fmap.
Qed.

Lemma at3_map3 {A B} (f : A → B) (a : cube A) t y x :
  at3 (map3 f a) t y x = f <$> at3 a t y x.
Proof.
  unfold at3, map3. rewrite list_lookup_fmap.
  destruct (a !! t) as [ia|]; simpl; [|done].
  apply at2_map2.
Qed.

(** ** Signs and special values of the arithmetic *)

Section Arithmetic.
Variables prec emax : Z.

Lemma binary_round_aux_sign s m e l :
  has_sign s (binary_round_aux prec emax s m e l).
Proof.
  unfold binary_round_aux.
  destruct (shr_fexp prec emax m e l) as [mrs e1].
  destruct (shr_fexp prec emax _ e1 loc_Exact) as [mrs2 e2].
  destruct (shr_m mrs2); simpl; [done| |done].
  by destruct (Z.leb e2 (Z.sub emax prec)).
Qed.

Lemma binary_round_sign s m e : has_sign s (binary_round prec emax s m e).
Proof.
  unfold binary_round. destruct (shl_align _ _ _) as [mz ez].
  apply binary_round_aux_sign.
Qed.

Lemma of_int_sign z : (0 ≤ z)%Z → has_sign false (of_int prec emax z).
Proof.
  intros Hz. destruct z as [|p|p]; simpl; [done| |lia].
  apply binary_round_sign.
Qed.


Lemma multiply_sign sx sy x y :
  has_sign sx x → has_sign sy y →
  has_sign (xorb sx sy) (multiply prec emax x y).
Proof.
  destruct x, y; simpl; try done; intros <- <-; try done.
  apply binary_round_aux_sign.
Qed.

Lemma true_divide_sign sx sy x y :
  has_sign sx x → has_sign sy y →
  has_sign (xorb sx sy) (true_divide prec emax x y).
Proof.
  destruct x, y; simpl; try done; intros <- <-; try done.
  destruct (SFdiv_core_binary _ _ _ _ _ _) as [[mz ez] lz].
  apply binary_round_aux_sign.
Qed.

(** A value that is not NaN and has a clear sign bit is at least zero. *)
Lemma nonneg_of_sign x :
  has_sign false x → isnan x = false →
  less_equal (of_int prec emax 0) x = true.
Proof. destruct x as [s|s| |s m e]; simpl; try done; by intros ->. Qed.

Lemma equal_zero_inv x :
  equal x (of_int prec emax 0) = true → ∃ s, x = S754_zero s.
Proof.
  destruct x as [s|s| |s m e]; simpl; try done; [by eexists| |];
    by destruct s.
Qed.


Lemma nd_nan_l b : Indices.normalized_difference prec emax nan b = nan.
Proof. by destruct b. Qed.

Lemma nd_nan_r a : Indices.normalized_difference prec emax a nan = nan.
Proof. by destruct a. Qed.

(** Division by a zero: NaN for a zero or NaN numerator, otherwise an
    infinity whose sign is the exclusive-or of the two sign bits. *)
Lemma true_divide_by_zero x s :
  true_divide prec emax x (S754_zero s) =
    if iszero x || isnan x then nan
    else S754_infinity (xorb (signbit x) s).
Proof. by destruct x. Qed.

End Arithmetic.

(** ** Rounding never produces NaN *)

Section Rounding.
Variables prec emax : Z.

Lemma shr_1_nonneg mrs : (0 ≤ shr_m mrs)%Z → (0 ≤ shr_m (shr_1 mrs))%Z.
Proof.
  destruct mrs as [m r s]; simpl. destruct m as [|p|p]; [done| |lia].
  intros _. by destruct p.
Qed.

Lemma iter_pos_shr_1_nonneg p mrs :
  (0 ≤ shr_m mrs)%Z → (0 ≤ shr_m (SpecFloat.iter_pos shr_1 p mrs))%Z.
Proof.
  revert mrs. induction p as [p IH|p IH|]; intros mrs H; simpl.
  - apply IH, IH. by apply shr_1_nonneg.
  - by apply IH, IH.
  - by apply shr_1_nonneg.
Qed.

Lemma shr_fexp_nonneg m e l :
  (0 ≤ m)%Z → (0 ≤ shr_m (shr_fexp prec emax m e l).1)%Z.
Proof.
  intros Hm. unfold shr_fexp, shr.
  assert (0 ≤ shr_m (shr_record_of_loc m l))%Z as H0.
  { destruct l as [|[]]; simpl; done. }
  destruct (Z.sub _ e) as [|p|p]; simpl; [done| |done].
  by apply iter_pos_shr_1_nonneg.
Qed.

Lemma round_nearest_even_nonneg m l :
  (0 ≤ m)%Z → (0 ≤ round_nearest_even m l)%Z.
Proof.
  intros Hm. destruct l as [|[]]; simpl; try done; [|lia].
  destruct (Z.even m); lia.
Qed.

Lemma binary_round_aux_notnan s m e l :
  (0 ≤ m)%Z → isnan (binary_round_aux prec emax s m e l) = false.
Proof.
  intros Hm. unfold binary_round_aux.
  pose proof (shr_fexp_nonneg m e l Hm) as H1.
  destruct (shr_fexp prec emax m e l) as [mrs e1]; simpl in H1.
  pose proof (shr_fexp_nonneg _ e1 loc_Exact
    (round_nearest_even_nonneg _ (loc_of_shr_record mrs) H1)) as H2.
  destruct (shr_fexp prec emax _ e1 loc_Exact) as [mrs2 e2]; simpl in H2.
  destruct (shr_m mrs2); [done| |lia].
  by destruct (Z.leb e2 (Z.sub emax prec)).
Qed.

Lemma binary_normalize_notnan m e sz :
  isnan (binary_normalize prec emax m e sz) = false.
Proof.
  destruct m as [|p|p]; simpl; [done| |];
    unfold binary_round; destruct (shl_align _ _ _) as [mz ez];
    by apply binary_round_aux_notnan.
Qed.

Lemma of_int_notnan z : isnan (of_int prec emax z) = false.
Proof. apply binary_normalize_notnan. Qed.


(** When the sum of two values is a zero, their difference is a number. *)
Lemma subtract_notnan_of_zero_sum a b s :
  add prec emax a b = S754_zero s → isnan (subtract prec emax a b) = false.
Proof.
  destruct a as [sa|sa| |sa ma ea], b as [sb|sb| |sb mb eb]; simpl;
    try done.
  - by destruct sa, sb.
  - by destruct sa, sb.
  - intros _. apply binary_normalize_notnan.
Qed.

End Rounding.

(** ** IndexCalculator *)

(** C2 as stated fails: with A = 1 and B = -1 the sum A + B is exactly
    zero, and the index is +infinity, not NaN. *)
Lemma normalized_difference_zero_sum_is_infinite :
  let a := of_int 53 1024 1 in
  let b := of_int 53 1024 (-1) in
  equal (add 53 1024 a b) (of_int 53 1024 0) = true
  ∧ Indices.normalized_difference 53 1024 a b = pinf
  ∧ isnan (Indices.normalized_difference 53 1024 a b) = false.
Proof. by vm_compute. Qed.

(** C2 (amended): MNDWI and NDCI are (A - B) / (A + B) element-wise; where
    either input is NaN the result is NaN; where A + B is exactly zero the
    result is NaN when A - B is zero too (both bands zero) and otherwise an
    infinity carrying the sign of A - B (exclusive-or'ed with the sign bit
    of the zero sum); and in binary64 the index of (3, 1) is 0.5, of (1, 3)
    is -0.5, of (0, 0) is NaN, of (1, -1) is +infinity and of (-1, 1) is
    -infinity. *)
Theorem normalized_difference_semantics (prec emax : Z) :
  let nd := Indices.normalized_difference prec emax in
  (∀ (A B : cube float) t y x,
     at3 (Indices.MNDWI prec emax A B) t y x
     = (a ← at3 A t y x; b ← at3 B t y x;
        Some (true_divide prec emax (subtract prec emax a b)
                                    (add prec emax a b))))
  ∧ (∀ (A B : cube float) t y x,
     at3 (Indices.NDCI prec emax A B) t y x
     = (a ← at3 A t y x; b ← at3 B t y x;
        Some (true_divide prec emax (subtract prec emax a b)
                                    (add prec emax a b))))
  ∧ (∀ a b, isnan a = true ∨ isnan b = true → nd a b = nan)
  ∧ (∀ a b, equal (add prec emax a b) (of_int prec emax 0) = true →
       nd a b = if equal (subtract prec emax a b) (of_int prec emax 0)
                then nan
                else S754_infinity (xorb (signbit (subtract prec emax a b))
                                         (signbit (add prec emax a b))))
  ∧ (let i := of_int 53 1024 in
     let nd64 := Indices.normalized_difference 53 1024 in
     nd64 (i 3%Z) (i 1%Z) = ratio 53 1024 1 2
     ∧ nd64 (i 1%Z) (i 3%Z) = ratio 53 1024 (-1) 2
     ∧ nd64 (i 0%Z) (i 0%Z) = nan
     ∧ nd64 (i 1%Z) (i (-1)%Z) = pinf
     ∧ nd64 (i (-1)%Z) (i 1%Z) = ninf).
Proof.
  intros nd. split_and!.
  - intros. apply at3_zip3.
  - intros. apply at3_zip3.
  - intros a b [Ha|Hb].
    + destruct a; try done; apply nd_nan_l.
    + destruct b; try done; apply nd_nan_r.
  - intros a b Hz. apply equal_zero_inv in Hz as [s Hs].
    pose proof (subtract_notnan_of_zero_sum prec emax a b s Hs) as Hn.
    unfold nd, Indices.normalized_difference. rewrite Hs.
    rewrite true_divide_by_zero.
    destruct (subtract prec emax a b) as [s'|s'| |s' m' e']; simpl in *;
      try done; by destruct s'.
  - by vm_compute.
Qed.

(** ** ScaledMaskedArray *)

(** C3: every pixel of a cleaned band is [value * scale + offset] where
    both the band's validity mask and the quality mask are true and NaN
    where either is false, whatever the raw value, scale and offset; the
    raw value 10000 with scale 0.0001 and offset 0 gives 1.0 when masked in
    (in binary64 and in binary32) and NaN when masked out. *)
Theorem clean_band_semantics (prec emax : Z) (scale offset : float) :
  (∀ (band : cube Z) (valid_mask good_pixel_mask : cube bool) t y x,
     at3 (Cleaning.clean_band prec emax scale offset band
            valid_mask good_pixel_mask) t y x
     = (v ← at3 band t y x;
        valid ← at3 valid_mask t y x;
        good ← at3 good_pixel_mask t y x;
        Some (if valid && good
              then add prec emax
                     (multiply prec emax (of_int prec emax v) scale) offset
              else nan)))
  ∧ (∀ v valid good,
       Cleaning.clean_pixel prec emax scale offset v valid good
       = if valid && good
         then add prec emax (multiply prec emax (of_int prec emax v) scale)
                offset
         else nan)
  ∧ Cleaning.clean_pixel 53 1024 Cleaning.scale Cleaning.offset
      10000 true true = of_int 53 1024 1
  ∧ Cleaning.clean_pixel 24 128 (ratio 24 128 1 10000) (of_int 24 128 0)
      10000 true true = of_int 24 128 1
  ∧ Cleaning.clean_pixel 53 1024 Cleaning.scale Cleaning.offset
      10000 false true = nan
  ∧ Cleaning.clean_pixel 53 1024 Cleaning.scale Cleaning.offset
      10000 true false = nan.
Proof.
  split_and!.
  - intros band vm gm t y x. unfold Cleaning.clean_band.
    rewrite at3_zip3, at3_zip3.
    destruct (at3 band t y x) as [v|]; simpl; [|done].
    destruct (at3 vm t y x) as [bv|]; simpl; [|done].
    destruct (at3 gm t y x) as [bq|]; simpl; [|done].
    by destruct (bv && bq).
  - intros v bv bq. unfold Cleaning.clean_pixel. by destruct (bv && bq).
  - by vm_compute.
  - by vm_compute.
  - by vm_compute.
  - by vm_compute.
Qed.

(** ** Temporal reduction over pixels *)

Lemma sum_list_b2z_nonneg (l : list bool) : (0 ≤ sum_list (b2z <$> l))%Z.
Proof.
  induction l as [|b l IH]; [done|].
  change (0 ≤ b2z b + sum_list (b2z <$> l))%Z. destruct b; simpl b2z; lia.
Qed.

Lemma at2_replicate {A} (h w : nat) (v : A) y x :
  at2 (replicate h (replicate w v)) y x
  = if decide (y < h ∧ x < w) then Some v else None.
Proof.
  unfold at2. case_decide as H.
  - destruct H as [Hy Hx].
    rewrite (lookup_replicate_2 h (replicate w v) y Hy). simpl.
    by apply lookup_replicate_2.
  - destruct (replicate h (replicate w v) !! y) as [row|] eqn:E; [|done].
    apply lookup_replicate in E as [-> Hy]. simpl.
    apply lookup_replicate_None. lia.
Qed.

(** A per-pixel count over time is never negative. *)
Lemma sum_time_nonneg (a : DataArray bool) y x c :
  at2 (sum_time a) y x = Some c → (0 ≤ c)%Z.
Proof.
  unfold sum_time. revert c.
  induction (values a) as [|img m IH]; intros c; simpl.
  - rewrite at2_replicate. case_decide; [|done]. intros [= <-]. lia.
  - rewrite at2_zip2, at2_map2.
    destruct (at2 img y x) as [b|]; simpl; [|done].
    destruct (at2 _ y x) as [c'|] eqn:E; simpl; [|done].
    intros [= <-]. specialize (IH c' eq_refl). destruct b; simpl; lia.
Qed.

(** On a well-shaped array [sum(dim='time')] is, at every pixel of the
    grid, the number of time steps at which the pixel is [True]. *)
Lemma sum_time_counts (a : DataArray bool) y x :
  well_shaped a → y < shape_y a → x < shape_x a →
  at2 (sum_time a) y x = Some (count_true_at (values a) y x).
Proof.
  unfold well_shaped, sum_time, count_true_at. intros Hws Hy Hx.
  induction Hws as [|img m [Hl Hrows] _ IH]; simpl.
  - rewrite at2_replicate. by rewrite decide_True.
  - rewrite at2_zip2, at2_map2, IH.
    assert (∃ b, at2 img y x = Some b) as [b ->]; [|done].
    unfold at2. destruct (lookup_lt_is_Some_2 img y) as [row Hrow]; [lia|].
    rewrite Hrow. simpl. apply lookup_lt_is_Some_2.
    rewrite Forall_forall in Hrows.
    rewrite (Hrows row); [done|]. by eapply list_elem_of_lookup_2.
Qed.

Section ClearPercentage.
Variables prec emax : Z.
Hypothesis hundred_finite : isinf (of_int prec emax 100) = false.

Lemma percentage_sign c v :
  (0 ≤ c)%Z → (0 ≤ v)%Z →
  has_sign false (CloudStatistics.percentage prec emax c v).
Proof.
  intros Hc Hv. unfold CloudStatistics.percentage.
  apply (true_divide_sign prec emax false false); [|by apply of_int_sign].
  apply (multiply_sign prec emax false false); by apply of_int_sign.
Qed.

Lemma guard_pinf : CloudStatistics.guard prec emax pinf = nan.
Proof using hundred_finite.
  unfold CloudStatistics.guard, less_equal.
  pose proof (of_int_notnan prec emax 100) as Hn.
  by destruct (of_int prec emax 100).
Qed.

Lemma guard_percentage_zero_valid c :
  (0 ≤ c)%Z →
  CloudStatistics.guard prec emax (CloudStatistics.percentage prec emax c 0)
  = nan.
Proof using hundred_finite.
  intros Hc.
  assert (has_sign false (multiply prec emax (of_int prec emax 100)
                                   (of_int prec emax c))) as Hm.
  { apply (multiply_sign prec emax false false); by apply of_int_sign. }
  unfold CloudStatistics.percentage.
  change (of_int prec emax 0) with (S754_zero false).
  rewrite true_divide_by_zero.
  destruct (multiply prec emax _ _) as [s|s| |s m e]; simpl in Hm;
    try done; subst; apply guard_pinf.
Qed.

Lemma guard_range c v :
  (0 ≤ c)%Z → (0 ≤ v)%Z →
  let p := CloudStatistics.guard prec emax
             (CloudStatistics.percentage prec emax c v) in
  isnan p = true
  ∨ (less_equal (of_int prec emax 0) p = true
     ∧ less_equal p (of_int prec emax 100) = true).
Proof.
  intros Hc Hv p. pose proof (percentage_sign c v Hc Hv) as Hs.
  subst p. unfold CloudStatistics.guard.
  destruct (less_equal _ (of_int prec emax 100)) eqn:Hle; simpl; [|by left].
  destruct (isnan (CloudStatistics.percentage prec emax c v)) eqn:Hn;
    [by left|right].
  split; [|done]. by apply (nonneg_of_sign prec emax).
Qed.

End ClearPercentage.

Lemma percentage_clear_at (prec emax : Z) (clear valid : DataArray bool) y x :
  at2 (CloudStatistics.percentage_clear prec emax clear valid) y x
  = (c ← at2 (sum_time clear) y x; v ← at2 (sum_time valid) y x;
     Some (CloudStatistics.guard prec emax
             (CloudStatistics.percentage prec emax c v))).
Proof.
  unfold CloudStatistics.percentage_clear. rewrite at2_map2, at2_zip2.
  destruct (at2 (sum_time clear) y x); simpl; [|done].
  by destruct (at2 (sum_time valid) y x).
Qed.

(** Comparing the other way round gives the opposite answer. *)
Lemma SFcompare_antisym (x y : float) :
  SFcompare y x = CompOpp <$> SFcompare x y.
Proof.
  destruct x as [sx|sx| |sx mx ex], y as [sy|sy| |sy my ey]; simpl;
    try done; try (by destruct sx); try (by destruct sy);
    try (by destruct sx, sy).
  destruct sx, sy; simpl; try done; f_equal;
    rewrite (Z.compare_antisym ex ey);
    destruct (Z.compare ex ey); simpl; try done;
    rewrite (Pos.compare_cont_antisym mx my Eq); simpl;
    by rewrite ?CompOpp_involutive.
Qed.

Lemma greater_not_less_equal (x y : float) :
  greater x y = true → less_equal x y = false.
Proof.
  unfold greater, less_equal, SFltb, SFleb.
  rewrite (SFcompare_antisym x y).
  by destruct (SFcompare x y) as [[]|].
Qed.

(** C7 as stated fails: a pixel clear at two time steps and valid at one has
    clear_count = 2 and valid_count = 1, and its value is NaN, neither
    2 / 1 nor 100 * 2 / 1. *)
Lemma percentage_clear_above_valid_is_nan :
  let clear_mask := mkDataArray 1 1 [[[true]]; [[true]]] in
  let valid_mask := mkDataArray 1 1 [[[true]]; [[false]]] in
  let out := at2 (CloudStatistics.percentage_clear 53 1024
                    clear_mask valid_mask) 0 0 in
  at2 (sum_time clear_mask) 0 0 = Some 2%Z
  ∧ at2 (sum_time valid_mask) 0 0 = Some 1%Z
  ∧ out = Some nan
  ∧ out ≠ Some (ratio 53 1024 2 1)
  ∧ out ≠ Some (CloudStatistics.percentage 53 1024 2 1).
Proof. by vm_compute. Qed.

(** C7 (amended): with clear_count and valid_count the per-pixel sums over
    time of the clear and the valid mask, the per-pixel value is the
    percentage 100 * clear_count / valid_count where that quotient is at
    most 100 and NaN where it is not; for every pixel whose valid_count is
    0 it is NaN (0/0 is NaN and a positive count over 0 is +infinity, which
    the guard turns into NaN); on well-shaped masks the sums are the number
    of time steps at which the pixel is true. *)
Theorem percentage_clear_semantics
    (clear_mask valid_mask : DataArray bool) (y x : nat) (c v : Z) :
  at2 (sum_time clear_mask) y x = Some c →
  at2 (sum_time valid_mask) y x = Some v →
  let out := at2 (CloudStatistics.percentage_clear 53 1024
                    clear_mask valid_mask) y x in
  let p := true_divide 53 1024
             (multiply 53 1024 (of_int 53 1024 100) (of_int 53 1024 c))
             (of_int 53 1024 v) in
  out = Some (if less_equal p (of_int 53 1024 100) then p else nan)
  ∧ (v = 0%Z → out = Some nan)
  ∧ (well_shaped clear_mask → y < shape_y clear_mask →
     x < shape_x clear_mask → c = count_true_at (values clear_mask) y x)
  ∧ (well_shaped valid_mask → y < shape_y valid_mask →
     x < shape_x valid_mask → v = count_true_at (values valid_mask) y x)
  ∧ CloudStatistics.percentage 53 1024 0 0 = nan
  ∧ CloudStatistics.percentage 53 1024 3 0 = pinf
  ∧ CloudStatistics.guard 53 1024 (CloudStatistics.percentage 53 1024 1 2)
    = of_int 53 1024 50.
Proof.
  intros Hc Hv out p. subst out. rewrite percentage_clear_at, Hc, Hv. simpl.
  split_and!.
  - done.
  - intros ->. f_equal.
    apply guard_percentage_zero_valid; [done|].
    by eapply sum_time_nonneg.
  - intros Hws Hy Hx. rewrite (sum_time_counts _ _ _ Hws Hy Hx) in Hc.
    by injection Hc.
  - intros Hws Hy Hx. rewrite (sum_time_counts _ _ _ Hws Hy Hx) in Hv.
    by injection Hv.
  - by vm_compute.
  - by vm_compute.
  - by vm_compute.
Qed.

(** A pixel that is never valid and once clear: +infinity before the
    guard, NaN after it. *)
Lemma percentage_clear_semantics_witness :
  let clear_mask := mkDataArray 1 1 [[[true]]; [[false]]] in
  let valid_mask := mkDataArray 1 1 [[[false]]; [[false]]] in
  at2 (sum_time clear_mask) 0 0 = Some 1%Z
  ∧ at2 (sum_time valid_mask) 0 0 = Some 0%Z
  ∧ at2 (CloudStatistics.percentage_clear 53 1024 clear_mask valid_mask) 0 0
    = Some nan.
Proof.
  intros clear_mask valid_mask.
  split; [reflexivity|]. split; [reflexivity|].
  apply (percentage_clear_semantics clear_mask valid_mask 0 0 1%Z 0%Z);
    reflexivity.
Defined.

(** C10: every element of the guarded clear-percentage image is NaN or lies
    in [0, 100]; every value above 100, +infinity included, is replaced by
    NaN, and so is the quotient of any count by a zero valid count. *)
Theorem percentage_clear_bounded
    (clear_mask valid_mask : DataArray bool) (y x : nat) (p : float) :
  at2 (CloudStatistics.percentage_clear 53 1024 clear_mask valid_mask) y x
  = Some p →
  (isnan p = true
   ∨ (less_equal (of_int 53 1024 0) p = true
      ∧ less_equal p (of_int 53 1024 100) = true))
  ∧ (∀ q, greater q (of_int 53 1024 100) = true →
       CloudStatistics.guard 53 1024 q = nan)
  ∧ CloudStatistics.guard 53 1024 pinf = nan
  ∧ (∀ c, (0 ≤ c)%Z →
       CloudStatistics.guard 53 1024 (CloudStatistics.percentage 53 1024 c 0)
       = nan)
  ∧ CloudStatistics.percentage 53 1024 1 0 = pinf.
Proof.
  intros H. rewrite percentage_clear_at in H.
  destruct (at2 (sum_time clear_mask) y x) as [c|] eqn:Hc; [|done].
  destruct (at2 (sum_time valid_mask) y x) as [v|] eqn:Hv; [|done].
  injection H as <-. split_and!.
  - apply guard_range; by eapply sum_time_nonneg.
  - intros q Hq. unfold CloudStatistics.guard.
    by rewrite (greater_not_less_equal _ _ Hq).
  - by vm_compute.
  - intros c' Hc'. by apply guard_percentage_zero_valid.
  - by vm_compute.
Qed.

(** A pixel clear at one of its two valid time steps: 50 percent. *)
Lemma percentage_clear_bounded_witness :
  let clear_mask := mkDataArray 1 1 [[[true]]; [[false]]] in
  let valid_mask := mkDataArray 1 1 [[[true]]; [[true]]] in
  at2 (CloudStatistics.percentage_clear 53 1024 clear_mask valid_mask) 0 0
  = Some (of_int 53 1024 50)
  ∧ less_equal (of_int 53 1024 0) (of_int 53 1024 50) = true
  ∧ less_equal (of_int 53 1024 50) (of_int 53 1024 100) = true.
Proof.
  intros clear_mask valid_mask.
  split; [reflexivity|].
  destruct (percentage_clear_bounded clear_mask valid_mask 0 0
              (of_int 53 1024 50) eq_refl) as [[Hn|Hr] _].
  - discriminate Hn.
  - exact Hr.
Defined.

(** ** TimeStepFilter *)

Lemma take_at_cons {A} i (idxs : list nat) (xs : list A) x :
  xs !! i = Some x → take_at (i :: idxs) xs = x :: take_at idxs xs.
Proof. intros H. unfold take_at. simpl. by rewrite H. Qed.

(** Indexing with a boolean vector gathers the elements at its [True]
    positions. *)
Lemma compress_take_at_from {A} (pre : list A) keep xs :
  length keep = length xs →
  compress keep xs = take_at (true_positions (length pre) keep) (pre ++ xs).
Proof.
  revert pre xs. induction keep as [|k keep IH]; intros pre [|x xs] Hl;
    simpl in *; try done.
  assert (compress keep xs
          = take_at (true_positions (S (length pre)) keep) (pre ++ x :: xs))
    as Hrec.
  { rewrite (IH (pre ++ [x]) xs); [|lia].
    rewrite length_app. simpl length.
    replace (length pre + 1) with (S (length pre)) by lia.
    f_equal. by rewrite <- app_assoc. }
  destruct k; [|done].
  rewrite (take_at_cons _ _ _ x); [by rewrite Hrec|].
  by rewrite list_lookup_middle.
Qed.

Lemma compress_take_at {A} keep (xs : list A) :
  length keep = length xs →
  compress keep xs = take_at (true_positions 0 keep) xs.
Proof. apply (compress_take_at_from []). Qed.

Lemma elem_of_true_positions k keep i :
  i ∈ true_positions k keep ↔ k ≤ i ∧ keep !! (i - k) = Some true.
Proof.
  revert k. induction keep as [|b keep IH]; intros k; simpl.
  - rewrite elem_of_nil. split; [done|by intros [_ ?]].
  - assert (i ∈ true_positions (S k) keep
            ↔ k < i ∧ (b :: keep) !! (i - k) = Some true) as Hrec.
    { rewrite IH. split.
      - intros [Hk Hi]. split; [lia|].
        replace (i - k) with (S (i - S k)) by lia. done.
      - intros [Hk Hi]. split; [lia|].
        replace (i - k) with (S (i - S k)) in Hi by lia. done. }
    destruct b.
    + rewrite elem_of_cons, Hrec. split.
      * intros [->|[Hk Hi]]; [|split; [lia|done]].
        split; [lia|]. by rewrite Nat.sub_diag.
      * intros [Hk Hi]. destruct (decide (i = k)) as [->|Hne]; [by left|].
        right. split; [lia|done].
    + rewrite Hrec. split.
      * intros [Hk Hi]. split; [lia|done].
      * intros [Hk Hi]. split; [|done].
        destruct (decide (i = k)) as [->|Hne]; [|lia].
        by rewrite Nat.sub_diag in Hi.
Qed.

Lemma true_positions_sorted k keep :
  StronglySorted lt (true_positions k keep)
  ∧ Forall (λ i, k ≤ i) (true_positions k keep).
Proof.
  revert k. induction keep as [|b keep IH]; intros k; simpl.
  - split; constructor.
  - destruct (IH (S k)) as [Hs Hf].
    assert (Forall (λ i, k ≤ i) (true_positions (S k) keep)) as Hf'.
    { eapply Forall_impl; [done|]. intros i Hi. simpl in Hi. lia. }
    destruct b; [|done].
    split; [|by constructor].
    constructor; [done|]. eapply Forall_impl; [exact Hf|].
    intros i Hi. simpl in Hi. lia.
Qed.

Lemma sum_list_b2z_count (row : list bool) :
  sum_list (b2z <$> row) = Z.of_nat (length (filter (λ b, b = true) row)).
Proof.
  induction row as [|b row IH]; [done|].
  change (b2z b + sum_list (b2z <$> row)
          = Z.of_nat (length (filter (λ b, b = true) (b :: row))))%Z.
  rewrite IH. destruct b.
  - rewrite filter_cons_True by done. simpl length. simpl b2z. lia.
  - rewrite filter_cons_False by done. simpl b2z. lia.
Qed.

(** The spatial sum of a boolean image is its number of [True] pixels. *)
Lemma sum_yx_count (img : image bool) :
  sum_yx img = Z.of_nat (length (filter (λ b, b = true) (concat img))).
Proof.
  unfold sum_yx. induction img as [|row img IH]; [done|].
  change (sum_list (b2z <$> row)
          + sum_list ((λ row, sum_list (b2z <$> row)) <$> img)
          = Z.of_nat (length (filter (λ b, b = true) (row ++ concat img))))%Z.
  rewrite IH, sum_list_b2z_count, filter_app, length_app. lia.
Qed.

(** C1: [data_perc] holds, per time step, the number of true pixels divided
    by [shape_y * shape_x]; the retained time steps are exactly those whose
    fraction is [>= min_gooddata], in increasing order; the time
    coordinate, every data variable and the quality mask are all restricted
    to those same time steps; and on a 4-step cube with fractions 0.9, 0.1,
    0.9, 0.1 the threshold 0.5 retains exactly the steps [0; 2]. *)
Theorem drop_low_quality_semantics {A} (prec emax : Z) (min_gooddata : float)
    (ds_s2 : Dataset A) (good_pixel_mask : DataArray bool) :
  length (time ds_s2) = length (values good_pixel_mask) →
  shares_time ds_s2 →
  let fraction (img : image bool) :=
    true_divide prec emax
      (of_int prec emax
         (Z.of_nat (length (filter (λ b, b = true) (concat img)))))
      (of_int prec emax
         (Z.of_nat (shape_y good_pixel_mask * shape_x good_pixel_mask))) in
  let retained :=
    true_positions 0 (Cleaning.keep prec emax min_gooddata good_pixel_mask) in
  Cleaning.data_perc prec emax good_pixel_mask
    = fraction <$> values good_pixel_mask
  ∧ (∀ t, t ∈ retained ↔
       ∃ img, values good_pixel_mask !! t = Some img
              ∧ greater_equal (fraction img) min_gooddata = true)
  ∧ StronglySorted lt retained
  ∧ (∃ ds_s2' good_pixel_mask',
       Cleaning.drop_low_quality prec emax min_gooddata ds_s2 good_pixel_mask
       = Some (ds_s2', good_pixel_mask')
       ∧ time ds_s2' = take_at retained (time ds_s2)
       ∧ (∀ name, data_vars ds_s2' !! name
                  = take_at retained <$> data_vars ds_s2 !! name)
       ∧ values good_pixel_mask'
         = take_at retained (values good_pixel_mask)
       ∧ shape_y good_pixel_mask' = shape_y good_pixel_mask
       ∧ shape_x good_pixel_mask' = shape_x good_pixel_mask)
  ∧ (let f9 := [[true; true; true; true; true];
                [true; true; true; true; false]] in
     let f1 := [[true; false; false; false; false];
                [false; false; false; false; false]] in
     let mask := mkDataArray 2 5 [f9; f1; f9; f1] in
     let band (v : Z) := replicate 2 (replicate 5 v) in
     let ds := mkDataset [10; 20; 30; 40]%Z
                 {[ "red" := [band 0; band 1; band 2; band 3]%Z ]} in
     Cleaning.data_perc 53 1024 mask
       = [ratio 53 1024 9 10; ratio 53 1024 1 10;
          ratio 53 1024 9 10; ratio 53 1024 1 10]
     ∧ true_positions 0 (Cleaning.keep 53 1024 (ratio 53 1024 1 2) mask)
       = [0; 2]
     ∧ match Cleaning.drop_low_quality 53 1024 (ratio 53 1024 1 2) ds mask
       with
       | Some (ds', mask') =>
           time ds' = [10; 30]%Z
           ∧ data_vars ds' !! "red" = Some [band 0; band 2]%Z
           ∧ values mask' = [f9; f9]
       | None => False
       end).
Proof.
  intros Hlen Hshare fraction retained.
  assert (Cleaning.data_perc prec emax good_pixel_mask
          = fraction <$> values good_pixel_mask) as Hperc.
  { unfold Cleaning.data_perc. apply list_fmap_ext. intros _ img _.
    unfold Cleaning.good_fraction, fraction. by rewrite sum_yx_count. }
  assert (length (Cleaning.keep prec emax min_gooddata good_pixel_mask)
          = length (values good_pixel_mask)) as Hk.
  { unfold Cleaning.keep, Cleaning.data_perc. by rewrite !length_fmap. }
  split_and!.
  - done.
  - intros t. unfold retained. rewrite elem_of_true_positions, Nat.sub_0_r.
    unfold Cleaning.keep. rewrite Hperc, !list_lookup_fmap.
    destruct (values good_pixel_mask !! t) as [img|]; simpl.
    + split.
      * intros [_ [= H]]. by exists img.
      * intros (img' & [= <-] & H). split; [lia|by rewrite H].
    + split; [by intros [_ ?]|by intros (? & ? & _)].
  - apply true_positions_sorted.
  - unfold Cleaning.drop_low_quality, ds_sel_time, sel_time.
    rewrite !decide_True by congruence. simpl.
    eexists _, _. split; [done|]. simpl. split_and!; try done.
    + apply compress_take_at. congruence.
    + intros name. rewrite lookup_fmap.
      destruct (data_vars ds_s2 !! name) as [c|] eqn:Hc; simpl; [|done].
      f_equal. apply compress_take_at. rewrite (Hshare name c Hc). congruence.
    + by apply compress_take_at.
  - by vm_compute.
Qed.

(** The hypotheses of C1 hold on a two-step dataset with one band. *)
Lemma drop_low_quality_semantics_witness :
  let mask := mkDataArray 1 2 [[[true; true]]; [[false; false]]] in
  let ds := mkDataset [10; 20]%Z {[ "red" := [[[7; 8]]; [[9; 9]]]%Z ]} in
  length (time ds) = length (values mask)
  ∧ shares_time ds
  ∧ StronglySorted lt
      (true_positions 0 (Cleaning.keep 53 1024 (ratio 53 1024 1 2) mask)).
Proof.
  intros mask ds.
  assert (shares_time ds) as Hs.
  { intros name c H. subst ds. simpl in H.
    apply lookup_singleton_Some in H as [_ <-]. reflexivity. }
  split; [reflexivity|]. split; [exact Hs|].
  exact (proj1 (proj2 (proj2
    (drop_low_quality_semantics 53 1024 (ratio 53 1024 1 2) ds mask
       eq_refl Hs)))).
Defined.

(** ** Rolling smoothing *)

Lemma filter_notnan_replicate k :
  filter (λ v, notnan v = true) (replicate k nan) = [].
Proof.
  induction k as [|k IH]; [done|]. simpl. by rewrite filter_cons_False.
Qed.

Lemma filter_notnan_take_padded k (l : list float) m :
  filter (λ v, notnan v = true) (take k (l ++ replicate m nan))
  = filter (λ v, notnan v = true) (take k l).
Proof.
  rewrite take_app, filter_app, take_replicate, filter_notnan_replicate.
  by rewrite app_nil_r.
Qed.

(** The values of a padded window that are not NaN are the values of the
    centred window that are not NaN: the padding adds nothing. *)
Lemma window_samples window (xs : list float) i :
  i < length xs →
  filter (λ v, notnan v = true)
         (take window (drop i (Rolling.pad window xs)))
  = filter (λ v, notnan v = true) (centred_window window xs i).
Proof.
  intros Hi. unfold Rolling.pad, centred_window.
  set (h := window / 2).
  assert (h ≤ window) as Hh
    by (subst h; apply Nat.Div0.div_le_upper_bound; lia).
  rewrite drop_app, length_replicate, drop_replicate.
  rewrite drop_app.
  replace (i - h - length xs) with 0 by lia. rewrite drop_0.
  rewrite take_app, length_replicate, take_replicate.
  rewrite filter_app, filter_notnan_replicate. simpl.
  rewrite filter_notnan_take_padded.
  do 2 f_equal. lia.
Qed.

(** The sort used by the median rearranges its input and orders it. *)
Lemma insert_sorted_perm x l : Rolling.insert_sorted x l ≡ₚ x :: l.
Proof.
  induction l as [|y l IH]; simpl; [done|].
  destruct (less_equal x y); [done|]. rewrite IH. apply Permutation_swap.
Qed.

Lemma sort_perm l : Rolling.sort l ≡ₚ l.
Proof.
  induction l as [|x l IH]; simpl; [done|].
  by rewrite insert_sorted_perm, IH.
Qed.







(** The sum from [0.0] of a plain number and itself, halved, is the
    number; and [0.0] added to a plain number is the number. *)
Section PlainNumbers.
Variables prec emax : Z.
Variable my : positive.
Hypothesis two_finite : of_int prec emax 2 = S754_finite false my (2 - prec).
Hypothesis two_digits : Z.pos (digits2_pos my) = prec.
Hypothesis two_mantissa : Z.pos my = (2 ^ (prec - 1))%Z.
Hypothesis prec_gt_1 : (1 < prec)%Z.




End PlainNumbers.

(** The rolling median returns one value per time step when the window and
    [min_periods] are positive and the series is not empty. *)
Lemma rolling_median_ok (prec emax : Z) (window min_periods : nat)
    (xs : list float) :
  0 < window → 0 < min_periods → 0 < length xs →
  ∃ out,
    Rolling.rolling_median prec emax window min_periods xs = Ok out
    ∧ length out = length xs
    ∧ ∀ i, i < length xs →
        out !! i
        = Some (where_
                  (bool_decide
                     (min_periods
                      ≤ length (filter (λ v, notnan v = true)
                                       (centred_window window xs i))))
                  (Rolling.median prec emax
                     (filter (λ v, notnan v = true)
                             (centred_window window xs i)))).
Proof.
  intros Hw Hm Hn. unfold Rolling.rolling_median.
  rewrite !decide_False by lia. eexists. split; [done|]. split.
  - unfold Rolling.construct. by rewrite !length_fmap, length_seq.
  - intros i Hi. unfold Rolling.construct.
    rewrite !list_lookup_fmap, lookup_seq_lt by done. simpl.
    unfold Rolling.nanmedian, Rolling.count_notnan.
    by rewrite window_samples.
Qed.





(** ** Scalar reductions over space *)

Lemma concat_zip2 {A B C} (f : A → B → C) (a : image A) (b : image B) :
  concat (zip2 f a b) = (λ p, f p.1 p.2) <$> concat (zip2 pair a b).
Proof.
  unfold zip2. revert b. induction a as [|ra a IH]; intros [|rb b]; simpl;
    try done.
  rewrite fmap_app, IH. f_equal.
  clear. revert rb. induction ra as [|u ra IH]; intros [|v rb]; simpl;
    try done.
  by rewrite IH.
Qed.

Lemma concat_zip2_diag {A C} (f : A → A → C) (a : image A) :
  concat (zip2 f a a) = (λ v, f v v) <$> concat a.
Proof.
  unfold zip2. induction a as [|ra a IH]; simpl; [done|].
  rewrite fmap_app, IH. f_equal.
  clear. induction ra as [|u ra IH]; simpl; [done|]. by rewrite IH.
Qed.

Section WaterSelection.
Variables prec emax : Z.

Lemma greater_notnan v z : greater v z = true → notnan v = true.
Proof. unfold greater, SFltb. by destruct z, v. Qed.

Lemma greater_nan z : greater nan z = false.
Proof. unfold greater, SFltb. by destruct z. Qed.

Lemma notnan_water_pixel m v :
  notnan (Water.water_pixel prec emax m v) = true
  ↔ greater m (of_int prec emax 0) = true ∧ notnan v = true.
Proof.
  unfold Water.water_pixel, where_.
  destruct (greater m (of_int prec emax 0)); simpl.
  - split; [by intros ?|by intros [_ ?]].
  - split; [by intros ?|by intros [? _]].
Qed.

Lemma watercount_filter (vs : list float) :
  length (filter (λ v, notnan v = true)
            ((λ v, Water.water_pixel prec emax v v) <$> vs))
  = length (filter (λ v, greater v (of_int prec emax 0) = true) vs).
Proof.
  induction vs as [|v vs IH]; [done|]. rewrite fmap_cons.
  destruct (greater v (of_int prec emax 0)) eqn:Hg.
  - rewrite (filter_cons_True _ (Water.water_pixel prec emax v v)).
    + rewrite (filter_cons_True _ v) by done. simpl. by rewrite IH.
    + apply notnan_water_pixel. split; [done|]. by eapply greater_notnan.
  - rewrite (filter_cons_False _ (Water.water_pixel prec emax v v)).
    + rewrite (filter_cons_False _ v); [done|]. by rewrite Hg.
    + rewrite notnan_water_pixel, Hg. by intros [? _].
Qed.

Lemma average_filter (px : list (float * float)) :
  filter (λ v, notnan v = true)
    ((λ p, Water.water_pixel prec emax p.1 p.2) <$> px)
  = snd <$> filter (λ p, greater p.1 (of_int prec emax 0) = true
                         ∧ notnan p.2 = true) px.
Proof.
  induction px as [|[m v] px IH]; [done|]. rewrite fmap_cons.
  destruct (decide (greater m (of_int prec emax 0) = true
                    ∧ notnan v = true)) as [H|H].
  - rewrite (filter_cons_True _ (Water.water_pixel prec emax m v))
      by by apply notnan_water_pixel.
    rewrite (filter_cons_True _ (m, v)) by done.
    rewrite fmap_cons, IH. simpl. f_equal.
    unfold Water.water_pixel. by rewrite (proj1 H).
  - rewrite (filter_cons_False _ (Water.water_pixel prec emax m v))
      by by rewrite notnan_water_pixel.
    by rewrite (filter_cons_False _ (m, v)) by done.
Qed.

End WaterSelection.

(** ** Sums *)

Section Sums.
Variables prec emax : Z.

Lemma sum_in_order_snoc vs x :
  sum_in_order prec emax (vs ++ [x])
  = add prec emax (sum_in_order prec emax vs) x.
Proof. unfold sum_in_order. by rewrite foldl_app. Qed.

(** The sum in the order of the elements is a sum. *)
Lemma sum_in_order_summation : summation prec emax (sum_in_order prec emax).
Proof.
  intros vs. induction vs as [|x vs IH] using rev_ind.
  - exists (term (S754_zero false)), 1. done.
  - destruct IH as (t & k & Hperm & Htot).
    exists (plus t (term x)), k. split.
    + simpl. rewrite Hperm. rewrite <- !app_assoc.
      apply Permutation_app_head. apply Permutation_app_comm.
    + simpl. by rewrite Htot, sum_in_order_snoc.
Qed.

(** Additions of [0.0] alone total [0.0]. *)
Lemma total_zeros t :
  Forall (λ x, x = S754_zero false) (terms t) →
  total prec emax t = S754_zero false.
Proof.
  induction t as [x|l IHl r IHr]; simpl.
  - by intros [-> _]%Forall_cons.
  - intros [Hl Hr]%Forall_app. by rewrite IHl, IHr.
Qed.

(** The pixels of the masked variable with NaN replaced by [0.0] are the
    values of the contributing pixels and a [0.0] for every other pixel. *)
Lemma contributions_perm (px : list (float * float)) :
  (λ v, if isnan v then S754_zero false else v)
    <$> ((λ p, Water.water_pixel prec emax p.1 p.2) <$> px)
  ≡ₚ (snd <$> filter (contributes prec emax) px)
     ++ replicate (length px - length (filter (contributes prec emax) px))
                  (S754_zero false).
Proof.
  induction px as [|[m v] px IH]; [done|]. rewrite !fmap_cons.
  cbn [fst snd].
  pose proof (length_filter (contributes prec emax) px) as Hle.
  destruct (decide (contributes prec emax (m, v))) as [H|H].
  - rewrite (filter_cons_True _ (m, v)) by done.
    destruct H as [Hg Hv]. simpl in Hg, Hv.
    assert (Water.water_pixel prec emax m v = v) as ->
      by (unfold Water.water_pixel; simpl; by rewrite Hg).
    unfold notnan in Hv. destruct (isnan v); [done|].
    rewrite fmap_cons. simpl. by apply Permutation_skip.
  - rewrite (filter_cons_False _ (m, v)) by done.
    assert (isnan (Water.water_pixel prec emax m v) = true) as ->.
    { destruct (isnan (Water.water_pixel prec emax m v)) eqn:E; [done|].
      exfalso. apply H. apply (notnan_water_pixel prec emax m v).
      unfold notnan. by rewrite E. }
    rewrite IH.
    change (length ((m, v) :: px)) with (S (length px)).
    rewrite Nat.sub_succ_l by exact Hle.
    simpl. by rewrite <- Permutation_middle.
Qed.

Lemma average_ndci_sum (np_sum : list float → float)
    (mndwi ndci : image float) :
  Water.average_ndci prec emax np_sum mndwi ndci
  = true_divide prec emax
      (np_sum ((λ v, if isnan v then S754_zero false else v)
                 <$> ((λ p, Water.water_pixel prec emax p.1 p.2)
                        <$> Water.pixels mndwi ndci)))
      (of_int prec emax
         (Z.of_nat (length (filter (contributes prec emax)
                                   (Water.pixels mndwi ndci))))).
Proof.
  unfold Water.average_ndci, Water.mean_skipna, Water.count,
    Water.ds_s2_water, Water.pixels.
  rewrite concat_zip2, average_filter. by rewrite length_fmap.
Qed.

(** The average NDCI adds up the NDCI of the contributing pixels, and
    zeros, and divides by the number of contributing pixels. *)
Lemma average_ndci_contributions (np_sum : list float → float)
    (mndwi ndci : image float) :
  summation prec emax np_sum →
  let water := filter (contributes prec emax) (Water.pixels mndwi ndci) in
  ∃ t k,
    terms t ≡ₚ water.*2 ++ replicate k (S754_zero false)
    ∧ Water.average_ndci prec emax np_sum mndwi ndci
      = true_divide prec emax (total prec emax t)
          (of_int prec emax (Z.of_nat (length water))).
Proof.
  intros Hsum water. rewrite average_ndci_sum. fold water.
  destruct (Hsum ((λ v, if isnan v then S754_zero false else v)
                    <$> ((λ p, Water.water_pixel prec emax p.1 p.2)
                           <$> Water.pixels mndwi ndci)))
    as (t & k & Hperm & Htot).
  rewrite contributions_perm in Hperm. fold water in Hperm.
  rewrite <- app_assoc, <- replicate_add in Hperm.
  exists t. eexists. split; [exact Hperm|]. by rewrite Htot.
Qed.

Lemma average_ndci_no_contribution (np_sum : list float → float)
    (mndwi ndci : image float) :
  summation prec emax np_sum →
  filter (contributes prec emax) (Water.pixels mndwi ndci) = [] →
  Water.average_ndci prec emax np_sum mndwi ndci = nan.
Proof.
  intros Hsum Hnone.
  destruct (average_ndci_contributions np_sum mndwi ndci Hsum)
    as (t & k & Hperm & ->).
  rewrite Hnone in *. simpl in Hperm.
  rewrite (total_zeros t); [done|].
  rewrite Hperm. by apply Forall_replicate.
Qed.

End Sums.

(** C9 as stated fails: in the slice below both pixels have MNDWI = 0.5 > 0
    and both are counted as water, but the first has no NDCI and the
    average NDCI is that of the second pixel alone, 0.25, which is also the
    average when the first pixel is not water at all; the mean of the NDCI
    of all the pixels with MNDWI > 0 would be NaN.  (Two values are summed
    in their order.) *)
Lemma water_pixel_without_ndci_not_averaged :
  let r := ratio 53 1024 in
  let np_sum := sum_in_order 53 1024 in
  let mndwi := [[r 1 2; r 1 2]]%Z in
  let ndci := [[nan; r 1 4]]%Z in
  let all_water :=
    (filter (λ p, greater p.1 (of_int 53 1024 0) = true)
            (Water.pixels mndwi ndci)).*2 in
  greater (r 1 2)%Z (of_int 53 1024 0) = true
  ∧ Water.ds_s2_watercount 53 1024 mndwi = 2%Z
  ∧ Water.average_ndci 53 1024 np_sum mndwi ndci = (r 1 4)%Z
  ∧ Water.average_ndci 53 1024 np_sum [[r (-1) 2; r 1 2]]%Z ndci = (r 1 4)%Z
  ∧ true_divide 53 1024 (np_sum all_water)
      (of_int 53 1024 (Z.of_nat (length all_water))) = nan.
Proof. by vm_compute. Qed.

(** C9 (amended): per time slice, the water count is the number of pixels
    whose MNDWI is strictly greater than 0.  The pixels that enter the
    average NDCI are those whose MNDWI is strictly greater than 0 and whose
    NDCI is not NaN: the average is a sum of the NDCI of exactly these
    pixels (every other pixel enters as [0.0]) divided by their number, and
    NaN when there is none, whatever the order in which the library adds.
    A pixel whose MNDWI is NaN is not greater than 0, so it is in
    neither. *)
Theorem water_selection_semantics (prec emax : Z)
    (np_sum : list float → float) (mndwi ndci : image float) :
  summation prec emax np_sum →
  let zero := of_int prec emax 0 in
  let water :=
    filter (λ p, greater p.1 zero = true ∧ notnan p.2 = true)
           (Water.pixels mndwi ndci) in
  Water.ds_s2_watercount prec emax mndwi
    = Z.of_nat (length (filter (λ m, greater m zero = true) (concat mndwi)))
  ∧ (∃ t k,
       terms t ≡ₚ water.*2 ++ replicate k zero
       ∧ Water.average_ndci prec emax np_sum mndwi ndci
         = true_divide prec emax (total prec emax t)
             (of_int prec emax (Z.of_nat (length water))))
  ∧ (water = [] → Water.average_ndci prec emax np_sum mndwi ndci = nan)
  ∧ (∀ m, isnan m = true → greater m zero = false)
  ∧ (∀ m v, notnan (Water.water_pixel prec emax m v) = true
            ↔ greater m zero = true ∧ notnan v = true).
Proof.
  intros Hsum zero water. split_and!.
  - unfold Water.ds_s2_watercount, Water.count, Water.ds_s2_water.
    by rewrite concat_zip2_diag, watercount_filter.
  - by apply average_ndci_contributions.
  - by apply average_ndci_no_contribution.
  - intros m Hm. destruct m; try done; apply greater_nan.
  - apply notnan_water_pixel.
Qed.

(** Two water pixels with NDCI 0.25 and 0.75, summed in their order. *)
Lemma water_selection_semantics_witness :
  let r := ratio 53 1024 in
  let mndwi := [[r 1 2; r 1 2]]%Z in
  let ndci := [[r 1 4; r 3 4]]%Z in
  summation 53 1024 (sum_in_order 53 1024)
  ∧ Water.ds_s2_watercount 53 1024 mndwi = 2%Z.
Proof.
  intros r mndwi ndci.
  pose proof (sum_in_order_summation 53 1024) as Hsum.
  split; [exact Hsum|].
  rewrite (proj1 (water_selection_semantics 53 1024 (sum_in_order 53 1024)
                    mndwi ndci Hsum)).
  reflexivity.
Defined.

(** ** CategoricalQualityMask *)

Lemma elem_of_labels (flag_values : list (Z * string)) l :
  l ∈ Odc.labels flag_values ↔ ∃ code, (code, l) ∈ flag_values.
Proof.
  unfold Odc.labels. rewrite elem_of_list_to_set, list_elem_of_fmap. split.
  - intros ([code l'] & -> & Hin). by exists code.
  - intros [code Hin]. by exists (code, l).
Qed.

Lemma v2n_snoc (flag_values : list (Z * string)) code l :
  Odc.v2n (flag_values ++ [(code, l)]) = <[l := code]> (Odc.v2n flag_values).
Proof. unfold Odc.v2n. by rewrite foldl_app. Qed.

(** The code of a label is the code of the last item with that label. *)
Lemma v2n_lookup (flag_values : list (Z * string)) l code :
  Odc.v2n flag_values !! l = Some code
  ↔ ∃ before after,
      flag_values = before ++ (code, l) :: after ∧ l ∉ after.*2.
Proof.
  induction flag_values as [|[c' l'] fv IH] using rev_ind.
  - split; [done|]. intros (before & after & E & _). by destruct before.
  - rewrite v2n_snoc. destruct (decide (l = l')) as [->|Hne].
    + rewrite lookup_insert_eq. split.
      * intros [= ->]. exists fv, []. split; [done|]. apply not_elem_of_nil.
      * intros (before & after & E & Hlast).
        destruct after as [|a after _] using rev_ind.
        -- apply app_inj_tail in E as [_ [= ->]]. done.
        -- rewrite app_comm_cons, app_assoc in E.
           apply app_inj_tail in E as [_ <-].
           exfalso. apply Hlast. rewrite fmap_app. apply elem_of_app.
           right. simpl. by left.
    + rewrite lookup_insert_ne by done. rewrite IH. split.
      * intros (before & after & -> & Hlast).
        exists before, (after ++ [(c', l')]). split.
        -- by rewrite <- app_assoc.
        -- rewrite fmap_app, elem_of_app. intros [?|Hin]; [done|].
           simpl in Hin. apply list_elem_of_singleton in Hin. done.
      * intros (before & after & E & Hlast).
        destruct after as [|a after _] using rev_ind.
        -- apply app_inj_tail in E as [_ [= _ ?]]. done.
        -- rewrite app_comm_cons, app_assoc in E.
           apply app_inj_tail in E as [-> <-].
           exists before, after. split; [done|].
           intros Hin. apply Hlast. rewrite fmap_app. apply elem_of_app.
           by left.
Qed.

Lemma v2n_is_Some (flag_values : list (Z * string)) l :
  l ∈ Odc.labels flag_values → is_Some (Odc.v2n flag_values !! l).
Proof.
  rewrite elem_of_labels. intros [code Hin].
  induction flag_values as [|[c' l'] fv IH] using rev_ind.
  - by apply elem_of_nil in Hin.
  - rewrite v2n_snoc. destruct (decide (l = l')) as [->|Hne].
    + rewrite lookup_insert_eq. eauto.
    + rewrite lookup_insert_ne by done. apply IH.
      apply elem_of_app in Hin as [Hin|Hin]; [done|].
      apply list_elem_of_singleton in Hin. congruence.
Qed.

(** The classes of a request whose labels are all known: the codes of the
    requested labels, as many as there are labels. *)
Lemma get_enum_values_ok (flag_values : list (Z * string))
    (names : list string) :
  (∀ l, l ∈ names → l ∈ Odc.labels flag_values) →
  ∃ classes,
    Odc.get_enum_values flag_values names = Ok classes
    ∧ length classes = length names
    ∧ ∀ px, px ∈ classes
            ↔ ∃ l, l ∈ names ∧ Odc.v2n flag_values !! l = Some px.
Proof.
  intros Hall. unfold Odc.get_enum_values.
  rewrite decide_True.
  2:{ apply subseteq_empty_difference_L. intros l Hl.
      apply elem_of_list_to_set in Hl. by apply Hall. }
  eexists. split; [done|]. split.
  - clear -Hall. induction names as [|n names IH]; [done|]. simpl.
    destruct (v2n_is_Some flag_values n) as [c ->].
    { apply Hall. by left. }
    simpl. f_equal. apply IH. intros l Hl. apply Hall. by right.
  - intros px. apply list_elem_of_omap.
Qed.

Lemma get_enum_values_raises (flag_values : list (Z * string))
    (names : list string) l :
  l ∈ names → l ∉ Odc.labels flag_values →
  Odc.get_enum_values flag_values names = Raised "ValueError".
Proof.
  intros Hin Hnot. unfold Odc.get_enum_values.
  rewrite decide_False; [done|]. intros Hempty.
  apply (not_elem_of_empty (C:=gset string) l). rewrite <- Hempty.
  apply elem_of_difference. split; [|done]. by apply elem_of_list_to_set.
Qed.

Lemma enum_to_bool_empty (flag_values : list (Z * string)) (mask : cube Z) :
  Odc.enum_to_bool flag_values mask [] = Raised "TypeError".
Proof. done. Qed.

Lemma enum_to_bool_raises (flag_values : list (Z * string)) (mask : cube Z)
    (categories : list string) l :
  l ∈ categories → l ∉ Odc.labels flag_values →
  Odc.enum_to_bool flag_values mask categories = Raised "ValueError".
Proof.
  intros Hin Hnot. unfold Odc.enum_to_bool.
  destruct categories as [|c cs]; [by apply elem_of_nil in Hin|].
  by rewrite (get_enum_values_raises _ _ l).
Qed.

(** A non-empty request of known labels gives the mask of the pixels whose
    code is the code of a requested label. *)
Lemma enum_to_bool_ok (flag_values : list (Z * string)) (mask : cube Z)
    (categories : list string) :
  categories ≠ [] →
  (∀ l, l ∈ categories → l ∈ Odc.labels flag_values) →
  ∃ good,
    Odc.enum_to_bool flag_values mask categories = Ok good
    ∧ ∀ t y x,
        (at3 good t y x = None ↔ at3 mask t y x = None)
        ∧ (at3 good t y x = Some true
           ↔ ∃ px l, at3 mask t y x = Some px ∧ l ∈ categories
                     ∧ Odc.v2n flag_values !! l = Some px).
Proof.
  intros Hne Hall.
  destruct (get_enum_values_ok flag_values categories Hall)
    as (classes & Hcl & Hlen & Hin).
  unfold Odc.enum_to_bool. destruct categories as [|c cs]; [done|].
  rewrite Hcl. destruct classes as [|k classes]; [done|].
  unfold Odc.enum_to_mask. eexists. split; [done|].
  intros t y x. rewrite at3_map3.
  destruct (at3 mask t y x) as [px|]; simpl.
  - split; [done|]. split.
    + intros [= H]. apply bool_decide_eq_true in H.
      apply Hin in H as (l & Hl & Hv). eauto.
    + intros (px' & l & [= <-] & Hl & Hv). f_equal.
      apply bool_decide_eq_true. apply Hin. eauto.
  - split; [done|]. split; [done|]. by intros (? & ? & ? & _).
Qed.

(** A request that gives a mask is not empty and names known labels only. *)
Lemma enum_to_bool_Ok_inv (flag_values : list (Z * string)) (mask : cube Z)
    (categories : list string) good :
  Odc.enum_to_bool flag_values mask categories = Ok good →
  categories ≠ [] ∧ ∀ l, l ∈ categories → l ∈ Odc.labels flag_values.
Proof.
  intros Hok. split; [by intros ->|].
  intros l Hl. destruct (decide (l ∈ Odc.labels flag_values)); [done|].
  by rewrite (enum_to_bool_raises _ _ _ l) in Hok.
Qed.

(** C4 as stated fails: a label that is not in the enumeration makes the
    call raise, but the exception is a [ValueError], there is no
    [UnknownCategoryError]; an empty request gives no all-false mask but a
    [TypeError]; and when two codes carry the same label, only the pixels
    of the later code are true. *)
Lemma enum_to_bool_unknown_label_is_value_error :
  let fmask : list (Z * string) :=
    [(0, "nodata"); (1, "valid"); (2, "cloud");
     (3, "shadow"); (4, "snow"); (5, "water")]%Z in
  let out := Odc.enum_to_bool fmask [[[1; 2; 5]]]%Z ["valid"; "watr"] in
  out = Raised "ValueError" ∧ out ≠ Raised "UnknownCategoryError"
  ∧ Odc.enum_to_bool fmask [[[1; 2; 5]]]%Z [] = Raised "TypeError"
  ∧ Odc.enum_to_bool [(1, "clear"); (5, "clear")]%Z [[[1; 5]]]%Z ["clear"]
    = Ok [[[false; true]]].
Proof. by vm_compute. Qed.

(** C4 (amended): if some requested label is not a label of the
    enumeration the call raises [ValueError] and returns no mask; an empty
    request raises [TypeError]; otherwise the call returns a mask of the
    shape of the input that is true exactly at the pixels whose code is the
    code of a requested label, the code of a label being that of the last
    item of the enumeration with the label; when no two codes carry the
    same label, these are exactly the pixels whose category is
    requested. *)
Theorem enum_to_bool_semantics (flag_values : list (Z * string))
    (mask : cube Z) (categories : list string) :
  ((∃ l, l ∈ categories ∧ ∀ code, (code, l) ∉ flag_values) →
     Odc.enum_to_bool flag_values mask categories = Raised "ValueError")
  ∧ (categories = [] →
     Odc.enum_to_bool flag_values mask categories = Raised "TypeError")
  ∧ (categories ≠ [] →
     (∀ l, l ∈ categories → ∃ code, (code, l) ∈ flag_values) →
     ∃ good, Odc.enum_to_bool flag_values mask categories = Ok good
       ∧ ∀ t y x,
           (at3 good t y x = None ↔ at3 mask t y x = None)
           ∧ (at3 good t y x = Some true
              ↔ ∃ px l before after,
                  at3 mask t y x = Some px ∧ l ∈ categories
                  ∧ flag_values = before ++ (px, l) :: after
                  ∧ l ∉ after.*2)
           ∧ ((∀ c c' l, (c, l) ∈ flag_values → (c', l) ∈ flag_values →
                         c = c') →
              (at3 good t y x = Some true
               ↔ ∃ px l, at3 mask t y x = Some px
                         ∧ (px, l) ∈ flag_values ∧ l ∈ categories)))
  ∧ (let fmask : list (Z * string) :=
       [(0, "nodata"); (1, "valid"); (2, "cloud");
        (3, "shadow"); (4, "snow"); (5, "water")]%Z in
     Odc.enum_to_bool fmask [[[1; 2; 5; 7]]]%Z ["valid"; "water"]
     = Ok [[[true; false; true; false]]]).
Proof.
  split_and!.
  - intros (l & Hin & Hno). apply (enum_to_bool_raises _ _ _ l); [done|].
    rewrite elem_of_labels. intros [code Hc]. by apply (Hno code).
  - intros ->. apply enum_to_bool_empty.
  - intros Hne Hall.
    destruct (enum_to_bool_ok flag_values mask categories Hne)
      as (good & Hgood & Hat).
    { intros l Hl. apply elem_of_labels. by apply Hall. }
    exists good. split; [done|]. intros t y x.
    destruct (Hat t y x) as [Hnone Htrue]. split; [done|]. split.
    + rewrite Htrue. split.
      * intros (px & l & Hpx & Hl & Hv).
        apply v2n_lookup in Hv as (before & after & E & Hlast).
        by exists px, l, before, after.
      * intros (px & l & before & after & Hpx & Hl & E & Hlast).
        exists px, l. split; [done|]. split; [done|].
        apply v2n_lookup. eauto.
    + intros Hinj. rewrite Htrue. split.
      * intros (px & l & Hpx & Hl & Hv).
        apply v2n_lookup in Hv as (before & after & -> & Hlast).
        exists px, l. split; [done|]. split; [|done].
        apply elem_of_app. right. by left.
      * intros (px & l & Hpx & Hin & Hl).
        exists px, l. split; [done|]. split; [done|].
        destruct (v2n_is_Some flag_values l) as [c Hc].
        { apply elem_of_labels. eauto. }
        rewrite Hc. f_equal.
        apply v2n_lookup in Hc as (before & after & E & _).
        apply (Hinj c px l); [|done]. rewrite E.
        apply elem_of_app. right. by left.
  - by vm_compute.
Qed.

(** C8: when the mask for a list of categories is built, the mask for any
    non-empty selection of them is built as well, and every pixel that is
    true in the latter is true in the former; the empty selection has no
    mask, it raises [TypeError]. *)
Theorem enum_to_bool_monotone (flag_values : list (Z * string))
    (mask : cube Z) (small large : list string) (good_large : cube bool) :
  small ⊆ large →
  Odc.enum_to_bool flag_values mask large = Ok good_large →
  (small = [] →
     Odc.enum_to_bool flag_values mask small = Raised "TypeError")
  ∧ (small ≠ [] →
     ∃ good_small,
       Odc.enum_to_bool flag_values mask small = Ok good_small
       ∧ ∀ t y x, at3 good_small t y x = Some true →
                  at3 good_large t y x = Some true).
Proof.
  intros Hsub Hlarge. split; [by intros ->|]. intros Hne.
  destruct (enum_to_bool_Ok_inv _ _ _ _ Hlarge) as [Hlne Hlall].
  destruct (enum_to_bool_ok flag_values mask large Hlne Hlall)
    as (good & Hgood & Hat).
  rewrite Hlarge in Hgood. injection Hgood as <-.
  destruct (enum_to_bool_ok flag_values mask small Hne)
    as (good_small & Hsmall & Hats).
  { intros l Hl. apply Hlall. by apply Hsub. }
  exists good_small. split; [done|]. intros t y x Htrue.
  apply (Hats t y x) in Htrue as (px & l & Hpx & Hl & Hv).
  apply (Hat t y x). exists px, l. split; [done|]. split; [|done].
  by apply Hsub.
Qed.

(** The mask of "water" lies below the mask of "valid" and "water". *)
Lemma enum_to_bool_monotone_witness :
  let fmask : list (Z * string) :=
    [(0, "nodata"); (1, "valid"); (5, "water")]%Z in
  let mask := [[[1; 0; 5]]]%Z in
  let small := ["water"] in
  let large := ["valid"; "water"] in
  small ⊆ large
  ∧ Odc.enum_to_bool fmask mask large = Ok [[[true; false; true]]]
  ∧ ∃ good_small,
      Odc.enum_to_bool fmask mask small = Ok good_small
      ∧ ∀ t y x, at3 good_small t y x = Some true →
                 at3 [[[true; false; true]]] t y x = Some true.
Proof.
  intros fmask mask small large.
  assert (small ⊆ large) as Hsub.
  { intros l Hl. apply list_elem_of_singleton in Hl as ->.
    apply elem_of_cons. right. by left. }
  assert (Odc.enum_to_bool fmask mask large = Ok [[[true; false; true]]])
    as Hlarge by (by vm_compute).
  assert (small ≠ []) as Hne by done.
  split; [exact Hsub|]. split; [exact Hlarge|].
  exact (proj2 (enum_to_bool_monotone fmask mask small large _ Hsub Hlarge)
           Hne).
Defined.

(** ** VectorRasterMask *)


Section RasterMask.
Variables geometry affine : Type.
Variable burns : affine → geometry → nat → nat → bool.

(** Burning the value 1 for every geometry leaves 1 where some geometry
    covers the pixel and the previous value elsewhere. *)
Lemma burn_ones transform (shp : list geometry) y x acc :
  foldl (λ acc (s : geometry * Z),
           if burns transform s.1 y x then s.2 else acc) acc
        ((λ g, (g, 1%Z)) <$> shp)
  = if existsb (λ g, burns transform g y x) shp then 1%Z
    else acc.
Proof.
  revert acc. induction shp as [|g shp IH]; intros acc; simpl; [done|].
  rewrite IH. destruct (burns transform g y x); simpl; [|done].
  by destruct (existsb _ shp).
Qed.



Lemma raster_mask_ok rasterio shp dims_y dims_x transform :
  rasterio = Rio.from_1_4 ∨ shp ≠ [] →
  0 < dims_y → 0 < dims_x →
  Rio.raster_mask geometry affine burns rasterio shp dims_y dims_x transform
  = Ok ((λ y, (λ x, if existsb (λ g, burns transform g y x) shp
                    then 1%Z else 0%Z) <$> seq 0 dims_x)
          <$> seq 0 dims_y).
Proof.
  intros Hr Hy Hx. unfold Rio.raster_mask, Rio.rasterize.
  assert (Ok ((λ y, (λ x, Rio.burn geometry affine burns transform
                            ((λ g, (g, 1%Z)) <$> shp) y x)
                      <$> seq 0 dims_x) <$> seq 0 dims_y)
          = Ok ((λ y, (λ x, if existsb (λ g, burns transform g y x) shp
                            then 1%Z else 0%Z) <$> seq 0 dims_x)
                  <$> seq 0 dims_y)) as <-.
  { f_equal. apply list_fmap_ext. intros _ y _. apply list_fmap_ext.
    intros _ x _. unfold Rio.burn. apply burn_ones. }
  destruct shp as [|g shp], rasterio; simpl;
    try (rewrite decide_False by lia; done).
  by destruct Hr.
Qed.

End RasterMask.



(** ** Date helpers *)

Lemma wrap64_small z : (- 2 ^ 63 ≤ z < 2 ^ 63)%Z → Dates.wrap64 z = z.
Proof.
  intros Hz. unfold Dates.wrap64.
  rewrite Z.mod_small; lia.
Qed.

Lemma distance_comparable d x :
  comparable d x →
  Dates.distance d x = Z.abs (x - d) ∧ Dates.distance d x ≠ Dates.NaT.
Proof.
  intros (Hx & Hd & Hr). unfold Dates.distance, Dates.sub, Dates.abs.
  rewrite (decide_False (P := x = Dates.NaT ∨ d = Dates.NaT)) by tauto.
  rewrite wrap64_small by lia.
  assert (x - d ≠ Dates.NaT)%Z as Hne by (unfold Dates.NaT; lia).
  rewrite decide_False by done. split; [done|]. unfold Dates.NaT. lia.
Qed.

Lemma lt_comparable d x y :
  comparable d x → comparable d y →
  Dates.lt (Dates.distance d x) (Dates.distance d y)
  = bool_decide (Z.abs (x - d) < Z.abs (y - d))%Z.
Proof.
  intros Hx Hy.
  destruct (distance_comparable d x Hx) as [Ex Nx].
  destruct (distance_comparable d y Hy) as [Ey Ny].
  unfold Dates.lt. apply bool_decide_ext. rewrite <- Ex, <- Ey. tauto.
Qed.

(** [min] with the distance key returns the first date of the list whose
    distance is least. *)
Lemma min_by_first d best rest :
  Forall (comparable d) (best :: rest) →
  ∃ l1 l2,
    best :: rest = l1 ++ Dates.min_by (Dates.distance d) best rest :: l2
    ∧ Forall (λ y, (Z.abs (Dates.min_by (Dates.distance d) best rest - d)
                    < Z.abs (y - d))%Z) l1
    ∧ Forall (λ y, (Z.abs (Dates.min_by (Dates.distance d) best rest - d)
                    ≤ Z.abs (y - d))%Z) l2.
Proof.
  revert best. induction rest as [|x rest IH]; intros best Hc; simpl.
  - exists [], []. by repeat constructor.
  - apply Forall_cons in Hc as [Hb Hc].
    pose proof Hc as Hc'. apply Forall_cons in Hc' as [Hx Hrest].
    rewrite (lt_comparable d x best Hx Hb). case_bool_decide as Hlt.
    + destruct (IH x Hc) as (l1 & l2 & E & H1 & H2).
      set (r := Dates.min_by (Dates.distance d) x rest) in *.
      exists (best :: l1), l2. split; [by rewrite E|]. split; [|done].
      constructor; [|done].
      destruct l1 as [|y l1]; simpl in E.
      * injection E as E _. rewrite <- E. lia.
      * injection E as E _. subst y. apply Forall_cons in H1 as [H1 _]. lia.
    + assert (Forall (comparable d) (best :: rest)) as Hbr
        by by constructor.
      destruct (IH best Hbr) as (l1 & l2 & E & H1 & H2).
      set (r := Dates.min_by (Dates.distance d) best rest) in *.
      destruct l1 as [|y l1]; simpl in E.
      * injection E as Eb El. exists [], (x :: l2).
        split; [simpl; by rewrite <- Eb, <- El|]. split; [done|].
        constructor; [|done]. rewrite <- Eb. lia.
      * injection E as Ey El. subst y. exists (best :: x :: l1), l2.
        split; [simpl; by rewrite El|]. split; [|done].
        pose proof H1 as H1'. apply Forall_cons in H1' as [Hb1 _].
        constructor; [done|]. constructor; [lia|].
        by apply Forall_cons in H1 as [_ H1].
Qed.

(** X1: [closest_date] raises [ValueError] on an empty list of dates; on
    dates whose distances to the desired date neither involve NaT nor
    overflow int64 it returns a date of the list at the least distance from
    the desired date, and of several such dates the first in the list. *)
Theorem closest_date_first_nearest (list_of_dates : list Z)
    (desired_date : Z) :
  Forall (comparable desired_date) list_of_dates →
  (list_of_dates = [] →
     Dates.closest_date list_of_dates desired_date = Raised "ValueError")
  ∧ (list_of_dates ≠ [] →
     ∃ r before after,
       Dates.closest_date list_of_dates desired_date = Ok r
       ∧ list_of_dates = before ++ r :: after
       ∧ Forall (λ y, (Z.abs (r - desired_date)
                       < Z.abs (y - desired_date))%Z) before
       ∧ Forall (λ y, (Z.abs (r - desired_date)
                       ≤ Z.abs (y - desired_date))%Z) after).
Proof.
  intros Hc. split; [by intros ->|].
  intros Hne. destruct list_of_dates as [|x rest]; [done|].
  destruct (min_by_first desired_date x rest Hc) as (l1 & l2 & E & H1 & H2).
  eexists _, l1, l2. split; [done|]. done.
Qed.

(** Three dates, two of them at the same distance: the first one wins. *)
Lemma closest_date_first_nearest_witness :
  Forall (comparable 20) [10; 30; 50]%Z
  ∧ ∃ r before after,
      Dates.closest_date [10; 30; 50]%Z 20 = Ok r
      ∧ [10; 30; 50]%Z = before ++ r :: after
      ∧ Forall (λ y, (Z.abs (r - 20) < Z.abs (y - 20))%Z) before
      ∧ Forall (λ y, (Z.abs (r - 20) ≤ Z.abs (y - 20))%Z) after.
Proof.
  assert (Forall (comparable 20) [10; 30; 50]%Z) as Hc.
  { repeat constructor; unfold Dates.NaT; lia. }
  split; [exact Hc|].
  apply (closest_date_first_nearest [10; 30; 50]%Z 20 Hc). discriminate.
Defined.

(** The first position of [True] in a boolean vector. *)
Lemma true_positions_head k bs :
  match true_positions k bs with
  | [] => Forall (λ b, b = false) bs
  | i :: _ => k ≤ i ∧ bs !! (i - k) = Some true
              ∧ ∀ j, j < i - k → bs !! j = Some false
  end.
Proof.
  revert k. induction bs as [|b bs IH]; intros k; simpl; [constructor|].
  destruct b.
  - split; [lia|]. rewrite Nat.sub_diag. split; [done|]. intros j Hj. lia.
  - specialize (IH (S k)). destruct (true_positions (S k) bs) as [|i rest].
    + by constructor.
    + destruct IH as (Hk & Hi & Hbefore). split; [lia|].
      replace (i - k) with (S (i - S k)) by lia. split; [done|].
      intros [|j] Hj; [done|]. simpl. apply Hbefore. lia.
Qed.

Lemma date_eq_true x k :
  Dates.eq x k = true ↔ k ≠ Dates.NaT ∧ x = k.
Proof.
  unfold Dates.eq. rewrite bool_decide_eq_true. split.
  - by intros (_ & Hk & ->).
  - intros [Hk ->]. done.
Qed.

Lemma date_index_ok l k i :
  Dates.date_index l k = Ok i
  ↔ k ≠ Dates.NaT ∧ l !! i = Some k ∧ ∀ j, j < i → l !! j ≠ Some k.
Proof.
  unfold Dates.date_index.
  pose proof (true_positions_head 0 ((λ x, Dates.eq x k) <$> l)) as H.
  destruct (true_positions 0 _) as [|i' rest].
  - split; [done|]. intros (Hk & Hi & _). exfalso.
    rewrite Forall_lookup in H.
    specialize (H i (Dates.eq k k)). rewrite list_lookup_fmap, Hi in H.
    specialize (H eq_refl). by apply not_true_iff_false in H;
      apply H, date_eq_true.
  - destruct H as (_ & Hi' & Hbefore). rewrite Nat.sub_0_r in *.
    rewrite list_lookup_fmap in Hi'.
    destruct (l !! i') as [x|] eqn:Ex; [|done]. injection Hi' as Hx.
    apply date_eq_true in Hx as [Hk ->].
    assert (∀ j, j < i' → l !! j ≠ Some k) as Hnone.
    { intros j Hj Ej. specialize (Hbefore j Hj).
      rewrite list_lookup_fmap, Ej in Hbefore. injection Hbefore as Hb.
      apply not_true_iff_false in Hb. by apply Hb, date_eq_true. }
    split.
    + intros [= <-]. done.
    + intros (_ & Hi & Hfirst). f_equal.
      destruct (Nat.lt_trichotomy i i') as [Hlt|[->|Hgt]]; [|done|].
      * by destruct (Hnone i Hlt).
      * by destruct (Hfirst i' Hgt).
Qed.

Lemma date_index_raises l k :
  Dates.date_index l k = Raised "IndexError" ↔ k = Dates.NaT ∨ k ∉ l.
Proof.
  unfold Dates.date_index.
  pose proof (true_positions_head 0 ((λ x, Dates.eq x k) <$> l)) as H.
  destruct (true_positions 0 _) as [|i' rest].
  - split; [|done]. intros _.
    destruct (decide (k = Dates.NaT)) as [|Hk]; [by left|right].
    intros Hin. apply list_elem_of_lookup in Hin as [i Hi].
    rewrite Forall_lookup in H.
    specialize (H i (Dates.eq k k)).
    rewrite list_lookup_fmap, Hi in H. specialize (H eq_refl).
    apply not_true_iff_false in H. by apply H, date_eq_true.
  - split; [done|]. destruct H as (_ & Hi' & _). rewrite Nat.sub_0_r in Hi'.
    rewrite list_lookup_fmap in Hi'.
    destruct (l !! i') as [x|] eqn:Ex; [|done].
    injection Hi' as Hx. apply date_eq_true in Hx as [Hk ->].
    intros [?|Hnot]; [done|]. exfalso. apply Hnot.
    by eapply list_elem_of_lookup_2.
Qed.

(** X2: [date_index] returns the first position at which the list holds
    the known date, and raises [IndexError] exactly when the date is not in
    the list (or is NaT, which equals nothing). *)
Theorem date_index_first_match (list_of_dates : list Z) (known_date : Z) :
  (∀ i, Dates.date_index list_of_dates known_date = Ok i
        ↔ known_date ≠ Dates.NaT
          ∧ list_of_dates !! i = Some known_date
          ∧ ∀ j, j < i → list_of_dates !! j ≠ Some known_date)
  ∧ (Dates.date_index list_of_dates known_date = Raised "IndexError"
     ↔ known_date = Dates.NaT ∨ known_date ∉ list_of_dates).
Proof. split; [intros i; apply date_index_ok|apply date_index_raises]. Qed.

(** X3: on a non-empty list of dates the two helpers compose: the date
    returned by [closest_date] is found by [date_index], at the first
    position where the list holds it, so the true-colour cell never fails
    with [IndexError]. *)
Theorem date_index_of_closest_date (list_of_dates : list Z)
    (desired_date : Z) :
  list_of_dates ≠ [] →
  Forall (comparable desired_date) list_of_dates →
  ∃ r i,
    Dates.closest_date list_of_dates desired_date = Ok r
    ∧ Dates.date_index list_of_dates r = Ok i
    ∧ list_of_dates !! i = Some r
    ∧ (∀ j, j < i → list_of_dates !! j ≠ Some r)
    ∧ Forall (λ y, (Z.abs (r - desired_date)
                    ≤ Z.abs (y - desired_date))%Z) list_of_dates.
Proof.
  intros Hne Hc. destruct list_of_dates as [|x rest]; [done|].
  destruct (min_by_first desired_date x rest Hc) as (l1 & l2 & E & H1 & H2).
  set (r := Dates.min_by (Dates.distance desired_date) x rest) in *.
  assert (r ∈ x :: rest) as Hin by (rewrite E; set_solver).
  assert (r ≠ Dates.NaT) as Hr.
  { rewrite Forall_forall in Hc. by destruct (Hc r Hin). }
  assert (Forall (λ y, (Z.abs (r - desired_date)
                        ≤ Z.abs (y - desired_date))%Z) (x :: rest)) as Hmin.
  { rewrite E. apply Forall_app. split.
    - eapply Forall_impl; [exact H1|]. intros y Hy. simpl in Hy. lia.
    - constructor; [lia|done]. }
  assert (∃ i, Dates.date_index (x :: rest) r = Ok i) as [i Hi].
  { destruct (Dates.date_index (x :: rest) r) as [i|e] eqn:Ed; [by eexists|].
    exfalso. unfold Dates.date_index in Ed.
    destruct (true_positions 0 _) eqn:Et; [|done]. injection Ed as <-.
    assert (Dates.date_index (x :: rest) r = Raised "IndexError") as Ed'
      by (unfold Dates.date_index; by rewrite Et).
    apply date_index_raises in Ed' as [?|?]; done. }
  exists r, i. split; [done|]. split; [done|].
  apply date_index_ok in Hi as (_ & Hi & Hfirst). done.
Qed.

(** The nearest of three dates is found at position 0. *)
Lemma date_index_of_closest_date_witness :
  [10; 30; 50]%Z ≠ []
  ∧ Forall (comparable 20) [10; 30; 50]%Z
  ∧ ∃ r i,
      Dates.closest_date [10; 30; 50]%Z 20 = Ok r
      ∧ Dates.date_index [10; 30; 50]%Z r = Ok i
      ∧ [10; 30; 50]%Z !! i = Some r
      ∧ (∀ j, j < i → [10; 30; 50]%Z !! j ≠ Some r)
      ∧ Forall (λ y, (Z.abs (r - 20) ≤ Z.abs (y - 20))%Z) [10; 30; 50]%Z.
Proof.
  assert (Forall (comparable 20) [10; 30; 50]%Z) as Hc.
  { repeat constructor; unfold Dates.NaT; lia. }
  assert ([10; 30; 50]%Z ≠ []) as Hne by discriminate.
  split; [exact Hne|]. split; [exact Hc|].
  exact (date_index_of_closest_date [10; 30; 50]%Z 20 Hne Hc).
Defined.

(** ** The clearest time slices *)

Lemma length_compress_decide {A} (P : Z → Prop) `{!∀ c, Decision (P c)}
    (n : list Z) (xs : list A) :
  length n = length xs →
  length (compress ((λ c, bool_decide (P c)) <$> n) xs)
  = length (filter P n).
Proof.
  revert xs. induction n as [|c n IH]; intros [|x xs] Hl; simpl in *;
    try done.
  case_bool_decide as Hc.
  - rewrite filter_cons_True by done. simpl. rewrite IH; [done|lia].
  - rewrite filter_cons_False by done. apply IH. lia.
Qed.

Lemma filter_none {A} (P : A → Prop) `{!∀ x, Decision (P x)} (l : list A) :
  Forall (λ x, ¬ P x) l → filter P l = [].
Proof.
  induction 1 as [|x l Hx _ IH]; [done|]. by rewrite filter_cons_False.
Qed.

(** The fourth largest value of at least four: it is one of the values, at
    least four values reach it, fewer than four exceed it, and exactly
    four reach it when they are distinct. *)
Lemma pix_thr_spec (n : list Z) :
  4 ≤ length n →
  ∃ thr, Clearest.pix_thr n = Ok thr
    ∧ thr ∈ n
    ∧ 4 ≤ length (filter (λ c, (thr ≤ c)%Z) n)
    ∧ length (filter (λ c, (thr < c)%Z) n) < 4
    ∧ (NoDup n → length (filter (λ c, (thr ≤ c)%Z) n) = 4).
Proof.
  intros Hn. unfold Clearest.pix_thr.
  pose proof (merge_sort_Permutation Z.le n) as Hperm.
  pose proof (StronglySorted_merge_sort Z.le n) as Hsort.
  set (s := merge_sort Z.le n) in *.
  assert (length s = length n) as Hlen by by rewrite Hperm.
  rewrite decide_True by lia.
  set (k := length s - 4).
  destruct (lookup_lt_is_Some_2 s k) as [thr Hthr]; [lia|].
  rewrite Hthr. exists thr. split; [done|].
  assert (s = take k s ++ thr :: drop (S k) s) as Es.
  { rewrite <- (drop_S s thr k Hthr). by rewrite take_drop. }
  assert (length (thr :: drop (S k) s) = 4) as Hlast.
  { simpl. rewrite length_drop. lia. }
  assert (Forall (λ c, (thr ≤ c)%Z) (thr :: drop (S k) s)) as Hge.
  { rewrite Es in Hsort. apply StronglySorted_app_1_r in Hsort.
    apply StronglySorted_inv in Hsort as [_ Hall].
    constructor; [lia|done]. }
  assert (Forall (λ c, (c ≤ thr)%Z) (take k s)) as Hle.
  { apply Forall_forall. intros c Hc. rewrite Es in Hsort.
    apply (StronglySorted_app_1_elem_of _ _ _ c thr Hsort); [done|by left]. }
  assert (filter (λ c, (thr ≤ c)%Z) (thr :: drop (S k) s)
          = thr :: drop (S k) s) as Hfl.
  { clear -Hge. induction Hge as [|c l Hc _ IH]; [done|].
    by rewrite filter_cons_True, IH. }
  assert (length (filter (λ c, (thr ≤ c)%Z) n)
          = length (filter (λ c, (thr ≤ c)%Z) (take k s)) + 4) as Hcount.
  { rewrite <- Hperm. rewrite Es at 1.
    by rewrite filter_app, length_app, Hfl, Hlast. }
  split_and!.
  - rewrite <- Hperm. by eapply list_elem_of_lookup_2.
  - lia.
  - rewrite <- Hperm. rewrite Es at 1.
    rewrite filter_app, length_app.
    rewrite (filter_none _ (take k s))
      by (eapply Forall_impl; [exact Hle|]; intros c Hc Hlt; simpl in *; lia).
    rewrite filter_cons_False by lia. simpl.
    pose proof (length_filter (λ c, (thr < c)%Z) (drop (S k) s)) as Hf.
    simpl in Hlast. lia.
  - intros Hnd. rewrite Hcount.
    assert (filter (λ c, (thr ≤ c)%Z) (take k s) = []) as ->; [|done].
    rewrite <- Hperm, Es in Hnd. apply NoDup_app in Hnd as (_ & Hdisj & _).
    apply filter_none. apply Forall_forall. intros c Hc Hle'.
    rewrite Forall_forall in Hle. specialize (Hle c Hc).
    apply (Hdisj c Hc). replace c with thr by lia. by left.
Qed.

(** X4: the selection of the clearest time slices raises [IndexError] on
    fewer than four time steps.  On four or more it returns the dataset
    restricted to the time steps whose number of good pixels is at least
    the fourth largest number, in their order: the time coordinate and
    every variable are restricted to these time steps and the names of the
    variables are kept.  The fourth largest number is one of the numbers
    that at least four time steps reach and fewer than four exceed; at
    least four time steps are kept, and exactly four when no two time steps
    have the same number of good pixels. *)
Theorem select_clearest_slices {A} (data : Dataset A)
    (good_pixel_mask : DataArray bool) :
  length (time data) = length (values good_pixel_mask) →
  shares_time data →
  let counts := sum_yx <$> values good_pixel_mask in
  (length (values good_pixel_mask) < 4 →
     Clearest.select data good_pixel_mask = Raised "IndexError")
  ∧ (4 ≤ length (values good_pixel_mask) →
     ∃ thr data',
       Clearest.select data good_pixel_mask = Ok data'
       ∧ thr ∈ counts
       ∧ 4 ≤ length (filter (λ c, (thr ≤ c)%Z) counts)
       ∧ length (filter (λ c, (thr < c)%Z) counts) < 4
       ∧ let kept :=
           true_positions 0 ((λ c, bool_decide (thr ≤ c)%Z) <$> counts) in
         (∀ t, t ∈ kept ↔ ∃ c, counts !! t = Some c ∧ (thr ≤ c)%Z)
         ∧ time data' = take_at kept (time data)
         ∧ dom (data_vars data') = dom (data_vars data)
         ∧ (∀ name c, data_vars data !! name = Some c →
              data_vars data' !! name = Some (take_at kept c))
         ∧ length (time data')
           = length (filter (λ c, (thr ≤ c)%Z) counts)
         ∧ (NoDup counts → length (time data') = 4)).
Proof.
  intros Hlen Hshare counts.
  assert (length counts = length (values good_pixel_mask)) as Hc
    by (unfold counts; by rewrite length_fmap).
  split.
  - intros Hshort. unfold Clearest.select, Clearest.pix_thr,
      Clearest.num_clear_pix. fold counts.
    rewrite decide_False; [done|].
    rewrite (Permutation_length (merge_sort_Permutation Z.le counts)). lia.
  - intros Hlong.
    destruct (pix_thr_spec counts)
      as (thr & Hthr & Hin & Hfour & Hthree & Hexact); [lia|].
    set (ind := (λ c, bool_decide (thr ≤ c)%Z) <$> counts).
    assert (length ind = length (time data)) as Hind
      by (unfold ind; rewrite length_fmap; lia).
    assert (length (compress ind (time data))
            = length (filter (λ c, (thr ≤ c)%Z) counts)) as Hkept.
    { unfold ind. apply length_compress_decide. lia. }
    exists thr. eexists.
    unfold Clearest.select, Clearest.num_clear_pix. fold counts.
    rewrite Hthr. unfold Clearest.clearest_ind. fold ind.
    unfold ds_sel_time. rewrite decide_True by done.
    split; [done|]. split; [done|]. split; [done|]. split; [done|].
    simpl. split_and!.
    + intros t. rewrite elem_of_true_positions, Nat.sub_0_r.
      unfold ind. rewrite list_lookup_fmap.
      destruct (counts !! t) as [c|]; simpl.
      * split.
        -- intros [_ [= H]]. apply bool_decide_eq_true in H. eauto.
        -- intros (c' & [= <-] & H). split; [lia|].
           f_equal. by apply bool_decide_eq_true.
      * split; [by intros [_ ?]|by intros (? & ? & _)].
    + by apply compress_take_at.
    + by rewrite dom_fmap_L.
    + intros name c Hname. rewrite lookup_fmap, Hname. simpl. f_equal.
      apply compress_take_at. rewrite Hind. symmetry. by eapply Hshare.
    + done.
    + intros Hnd. rewrite Hkept. by apply Hexact.
Qed.

(** Five time steps with 3, 1, 4, 2 and 0 good pixels and one variable:
    the first four are kept. *)
Lemma select_clearest_slices_witness :
  let mask := mkDataArray 1 4
    [[[true; true; true; false]]; [[true; false; false; false]];
     [[true; true; true; true]]; [[true; true; false; false]];
     [[false; false; false; false]]] in
  let band : cube Z :=
    [[[1; 1; 1; 1]]; [[2; 2; 2; 2]]; [[3; 3; 3; 3]]; [[4; 4; 4; 4]];
     [[5; 5; 5; 5]]]%Z in
  let data := mkDataset [10; 20; 30; 40; 50]%Z {[ "green" := band ]} in
  length (time data) = length (values mask)
  ∧ shares_time data
  ∧ ∃ data', Clearest.select data mask = Ok data'
      ∧ length (time data') = 4
      ∧ time data' = [10; 20; 30; 40]%Z
      ∧ data_vars data' !! "green" = Some (take 4 band).
Proof.
  intros mask band data.
  assert (shares_time data) as Hshare.
  { intros name c Hc. unfold data in Hc. simpl in Hc.
    apply lookup_singleton_Some in Hc as [_ <-]. done. }
  split; [reflexivity|]. split; [exact Hshare|].
  destruct (select_clearest_slices data mask eq_refl Hshare) as [_ H].
  destruct H as (thr & data' & Hsel & _ & _ & _ & _ & _ & _ & _ & _ & Hfour);
    [simpl; lia|].
  exists data'. split; [exact Hsel|].
  assert (NoDup (sum_yx <$> values mask)) as Hnd
    by (apply (bool_decide_unpack _); by vm_compute).
  split; [by apply Hfour|].
  assert (Clearest.select data mask
          = Ok (mkDataset [10; 20; 30; 40]%Z
                  (compress [true; true; true; true; false]
                     <$> data_vars data))) as E by reflexivity.
  rewrite E in Hsel. injection Hsel as <-. split; [reflexivity|].
  simpl. by rewrite lookup_fmap, lookup_singleton_eq.
Defined.

(** ** The time-step filter as a step of the pipeline *)

Lemma compress_all_true {A} keep (xs : list A) :
  Forall (λ b, b = true) keep → length keep = length xs →
  compress keep xs = xs.
Proof.
  intros Hk. revert xs. induction Hk as [|b keep -> _ IH]; intros [|x xs] Hl;
    simpl in *; try done.
  rewrite IH; [done|lia].
Qed.

Lemma length_compress_same {A B} keep (xs : list A) (ys : list B) :
  length keep = length xs → length keep = length ys →
  length (compress keep xs) = length (compress keep ys).
Proof.
  revert xs ys. induction keep as [|b keep IH]; intros [|x xs] [|y ys] Hx Hy;
    simpl in *; try done.
  destruct b; simpl; rewrite (IH xs ys); lia.
Qed.

Lemma length_compress_le {A} keep (xs : list A) :
  length (compress keep xs) ≤ length xs.
Proof.
  revert xs. induction keep as [|b keep IH]; intros [|x xs]; simpl;
    try lia.
  specialize (IH xs). destruct b; simpl; lia.
Qed.

Lemma compress_Forall {A} (P : A → Prop) keep (xs : list A) :
  Forall P xs → Forall P (compress keep xs).
Proof.
  intros H. revert keep. induction H as [|x xs Hx _ IH]; intros [|b keep];
    simpl; try done.
  destruct b; [by constructor|done].
Qed.

(** What a predicate keeps satisfies the predicate. *)
Lemma compress_by_predicate {A} (f : A → bool) (xs : list A) :
  Forall (λ b, b = true) (f <$> compress (f <$> xs) xs).
Proof.
  induction xs as [|x xs IH]; simpl; [constructor|].
  destruct (f x) eqn:E; [|done]. simpl. by constructor.
Qed.

Section TimeStepFilter.
Context {A : Type}.
Variables prec emax : Z.
Variable min_gooddata : float.
Variable ds_s2 : Dataset A.
Variable good_pixel_mask : DataArray bool.
Hypothesis same_time :
  length (time ds_s2) = length (values good_pixel_mask).
Hypothesis shared : shares_time ds_s2.

Let keep := Cleaning.keep prec emax min_gooddata good_pixel_mask.

Lemma length_keep : length keep = length (values good_pixel_mask).
Proof using Type.
  unfold keep, Cleaning.keep, Cleaning.data_perc. by rewrite !length_fmap.
Qed.

Lemma drop_low_quality_result :
  Cleaning.drop_low_quality prec emax min_gooddata ds_s2 good_pixel_mask
  = Some (mkDataset (compress keep (time ds_s2))
                    (compress keep <$> data_vars ds_s2),
          mkDataArray (shape_y good_pixel_mask) (shape_x good_pixel_mask)
                      (compress keep (values good_pixel_mask))).
Proof using same_time.
  unfold Cleaning.drop_low_quality, ds_sel_time, sel_time. fold keep.
  pose proof length_keep as Hk.
  rewrite !decide_True by congruence. done.
Qed.

(** The mask that survives the filter passes the filter entirely. *)
Lemma keep_of_kept :
  Forall (λ b, b = true)
    (Cleaning.keep prec emax min_gooddata
       (mkDataArray (shape_y good_pixel_mask) (shape_x good_pixel_mask)
                    (compress keep (values good_pixel_mask)))).
Proof using Type.
  unfold keep, Cleaning.keep, Cleaning.data_perc. simpl.
  rewrite <- !list_fmap_compose. apply compress_by_predicate.
Qed.

End TimeStepFilter.

(** X5: the time-step filter is idempotent: applied to its own output with
    the same threshold it returns that output unchanged. *)
Theorem drop_low_quality_idempotent {A} (prec emax : Z)
    (min_gooddata : float) (ds_s2 ds_s2' : Dataset A)
    (good_pixel_mask good_pixel_mask' : DataArray bool) :
  length (time ds_s2) = length (values good_pixel_mask) →
  shares_time ds_s2 →
  Cleaning.drop_low_quality prec emax min_gooddata ds_s2 good_pixel_mask
  = Some (ds_s2', good_pixel_mask') →
  Cleaning.drop_low_quality prec emax min_gooddata ds_s2' good_pixel_mask'
  = Some (ds_s2', good_pixel_mask').
Proof.
  intros Hlen Hshare Hdrop.
  rewrite drop_low_quality_result in Hdrop by done.
  injection Hdrop as <- <-.
  set (keep := Cleaning.keep prec emax min_gooddata good_pixel_mask).
  pose proof (length_keep prec emax min_gooddata good_pixel_mask) as Hk.
  fold keep in Hk.
  pose proof (keep_of_kept prec emax min_gooddata good_pixel_mask) as Hall.
  fold keep in Hall.
  set (keep' := Cleaning.keep prec emax min_gooddata _) in Hall.
  assert (length keep' = length (compress keep (values good_pixel_mask)))
    as Hk'.
  { unfold keep', Cleaning.keep, Cleaning.data_perc.
    by rewrite !length_fmap. }
  rewrite drop_low_quality_result; simpl.
  - fold keep'. f_equal. f_equal.
    + f_equal.
      * apply compress_all_true; [done|]. rewrite Hk'.
        apply length_compress_same; congruence.
      * apply map_eq. intros name. rewrite !lookup_fmap.
        destruct (data_vars ds_s2 !! name) as [c|] eqn:Hc; simpl; [|done].
        f_equal. apply compress_all_true; [done|]. rewrite Hk'.
        apply length_compress_same; [congruence|].
        rewrite (Hshare name c Hc). congruence.
    + f_equal. by apply compress_all_true.
  - apply length_compress_same; congruence.
Qed.

(** Filtering a two-step series twice. *)
Lemma drop_low_quality_idempotent_witness :
  let mask := mkDataArray 1 2 [[[true; true]]; [[false; false]]] in
  let ds := mkDataset [10; 20]%Z (∅ : gmap string (cube Z)) in
  let mask' := mkDataArray 1 2 [[[true; true]]] in
  let ds' := mkDataset [10]%Z (∅ : gmap string (cube Z)) in
  length (time ds) = length (values mask)
  ∧ shares_time ds
  ∧ Cleaning.drop_low_quality 53 1024 (ratio 53 1024 1 2) ds mask
    = Some (ds', mask')
  ∧ Cleaning.drop_low_quality 53 1024 (ratio 53 1024 1 2) ds' mask'
    = Some (ds', mask').
Proof.
  intros mask ds mask' ds'.
  assert (shares_time ds) as Hs by (intros name c H; done).
  assert (Cleaning.drop_low_quality 53 1024 (ratio 53 1024 1 2) ds mask
          = Some (ds', mask')) as Hd by (by vm_compute).
  split; [reflexivity|]. split; [exact Hs|]. split; [exact Hd|].
  exact (drop_low_quality_idempotent 53 1024 (ratio 53 1024 1 2)
           ds ds' mask mask' eq_refl Hs Hd).
Defined.

(** X6: on a dataset and a mask over the same time axis the filter never
    fails, also when it drops every time step (the result is then empty);
    its outputs again share one time axis, no longer than the input's, keep
    the names of the variables and the shape of the grid. *)
Theorem drop_low_quality_keeps_axes {A} (prec emax : Z)
    (min_gooddata : float) (ds_s2 : Dataset A)
    (good_pixel_mask : DataArray bool) :
  length (time ds_s2) = length (values good_pixel_mask) →
  shares_time ds_s2 →
  ∃ ds_s2' good_pixel_mask',
    Cleaning.drop_low_quality prec emax min_gooddata ds_s2 good_pixel_mask
    = Some (ds_s2', good_pixel_mask')
    ∧ length (time ds_s2') = length (values good_pixel_mask')
    ∧ shares_time ds_s2'
    ∧ length (time ds_s2') ≤ length (time ds_s2)
    ∧ dom (data_vars ds_s2') = dom (data_vars ds_s2)
    ∧ (well_shaped good_pixel_mask → well_shaped good_pixel_mask')
    ∧ (Forall (λ p, greater_equal p min_gooddata = false)
              (Cleaning.data_perc prec emax good_pixel_mask) →
       time ds_s2' = [] ∧ values good_pixel_mask' = []).
Proof.
  intros Hlen Hshare. eexists _, _.
  split; [by apply drop_low_quality_result|]. simpl.
  pose proof (length_keep prec emax min_gooddata good_pixel_mask) as Hk.
  set (keep := Cleaning.keep prec emax min_gooddata good_pixel_mask) in *.
  split_and!.
  - apply length_compress_same; congruence.
  - intros name c'. simpl. rewrite lookup_fmap.
    destruct (data_vars ds_s2 !! name) as [c|] eqn:Hc; simpl; [|done].
    intros [= <-]. apply length_compress_same; [|congruence].
    rewrite (Hshare name c Hc). congruence.
  - apply length_compress_le.
  - apply dom_fmap_L.
  - unfold well_shaped. simpl. apply compress_Forall.
  - intros Hnone.
    assert (Forall (λ b, b = false) keep) as Hfalse.
    { unfold keep, Cleaning.keep. by apply Forall_fmap. }
    assert (∀ B (xs : list B), compress keep xs = []) as Hempty.
    { clear -Hfalse. intros B xs. revert xs.
      induction Hfalse as [|b keep -> _ IH]; intros [|x xs]; simpl; done. }
    by rewrite !Hempty.
Qed.

(** A two-step series of which no step reaches the threshold. *)
Lemma drop_low_quality_keeps_axes_witness :
  let mask := mkDataArray 1 2 [[[false; true]]; [[false; false]]] in
  let ds := mkDataset [10; 20]%Z (∅ : gmap string (cube Z)) in
  length (time ds) = length (values mask)
  ∧ shares_time ds
  ∧ ∃ ds' mask',
      Cleaning.drop_low_quality 53 1024 (ratio 53 1024 3 4) ds mask
      = Some (ds', mask')
      ∧ length (time ds') = length (values mask').
Proof.
  intros mask ds.
  assert (shares_time ds) as Hs by (intros name c H; done).
  split; [reflexivity|]. split; [exact Hs|].
  destruct (drop_low_quality_keeps_axes 53 1024 (ratio 53 1024 3 4)
              ds mask eq_refl Hs) as (ds' & mask' & Hd & Hl & _).
  exists ds', mask'. split; [exact Hd|exact Hl].
Defined.

(** ** From the masks to the water count *)

Lemma clean_band_at (prec emax : Z) (scale offset : float) (band : cube Z)
    (valid_mask good_pixel_mask : cube bool) t y x :
  at3 (Cleaning.clean_band prec emax scale offset band
         valid_mask good_pixel_mask) t y x
  = (v ← at3 band t y x;
     valid ← at3 valid_mask t y x;
     good ← at3 good_pixel_mask t y x;
     Some (Cleaning.clean_pixel prec emax scale offset v valid good)).
Proof.
  unfold Cleaning.clean_band. rewrite at3_zip3, at3_zip3.
  destruct (at3 band t y x) as [v|]; simpl; [|done].
  destruct (at3 valid_mask t y x) as [bv|]; simpl; [|done].
  by destruct (at3 good_pixel_mask t y x) as [bq|].
Qed.

Lemma clean_pixel_masked_out (prec emax : Z) scale offset v valid good :
  valid && good = false →
  Cleaning.clean_pixel prec emax scale offset v valid good = nan.
Proof. unfold Cleaning.clean_pixel. by intros ->. Qed.

(** X7: a pixel whose MNDWI, computed from the cleaned green and swir_2
    bands, is greater than 0 (a pixel counted as water) is valid in both
    bands and good in the quality mask: a masked-out pixel is never counted
    as water, whatever its raw values, scale and offset. *)
Theorem water_pixels_are_unmasked (prec emax : Z) (scale offset : float)
    (green swir_2 : cube Z) (valid_green valid_swir_2 good_pixel_mask
    : cube bool) (t y x : nat) (m : float) :
  at3 (Indices.MNDWI prec emax
         (Cleaning.clean_band prec emax scale offset green
            valid_green good_pixel_mask)
         (Cleaning.clean_band prec emax scale offset swir_2
            valid_swir_2 good_pixel_mask)) t y x = Some m →
  greater m (of_int prec emax 0) = true →
  at3 valid_green t y x = Some true
  ∧ at3 valid_swir_2 t y x = Some true
  ∧ at3 good_pixel_mask t y x = Some true.
Proof.
  unfold Indices.MNDWI. rewrite at3_zip3, !clean_band_at.
  destruct (at3 green t y x) as [g|]; simpl; [|done].
  destruct (at3 valid_green t y x) as [vg|]; simpl; [|done].
  destruct (at3 good_pixel_mask t y x) as [q|]; simpl; [|done].
  destruct (at3 swir_2 t y x) as [s|]; simpl; [|done].
  destruct (at3 valid_swir_2 t y x) as [vs|]; simpl; [|done].
  intros [= <-] Hm. apply greater_notnan in Hm.
  destruct (vg && q) eqn:E1.
  - destruct (vs && q) eqn:E2.
    + apply andb_true_iff in E1 as [-> ->].
      apply andb_true_iff in E2 as [-> _]. done.
    + rewrite (clean_pixel_masked_out prec emax scale offset s vs q E2) in Hm.
      by rewrite nd_nan_r in Hm.
  - rewrite (clean_pixel_masked_out prec emax scale offset g vg q E1) in Hm.
    by rewrite nd_nan_l in Hm.
Qed.

(** One clean pixel with green 3000 and swir_2 1000: MNDWI 0.5. *)
Lemma water_pixels_are_unmasked_witness :
  let mndwi :=
    Indices.MNDWI 53 1024
      (Cleaning.clean_band 53 1024 Cleaning.scale Cleaning.offset
         [[[3000%Z]]] [[[true]]] [[[true]]])
      (Cleaning.clean_band 53 1024 Cleaning.scale Cleaning.offset
         [[[1000%Z]]] [[[true]]] [[[true]]]) in
  ∃ m, at3 mndwi 0 0 0 = Some m
       ∧ greater m (of_int 53 1024 0) = true
       ∧ at3 [[[true]]] 0 0 0 = Some true.
Proof.
  intros mndwi.
  assert (∃ m, at3 mndwi 0 0 0 = Some m
               ∧ greater m (of_int 53 1024 0) = true) as (m & Hm & Hg).
  { eexists. split; [by vm_compute|by vm_compute]. }
  exists m. split; [exact Hm|]. split; [exact Hg|].
  exact (proj1 (water_pixels_are_unmasked 53 1024 Cleaning.scale
                  Cleaning.offset [[[3000%Z]]] [[[1000%Z]]] [[[true]]]
                  [[[true]]] [[[true]]] 0 0 0 m Hm Hg)).
Defined.

(** ** Applying the raster mask *)

(** X8: after [ds.where(mask)] with the rasterized polygons, a pixel of the
    grid keeps its value at every time step if some polygon burns it and is
    NaN at every time step otherwise, with every release of rasterio. *)
Theorem raster_mask_applied (geometry affine : Type)
    (burns : affine → geometry → nat → nat → bool)
    (rasterio : Rio.release) (shp : list geometry) (dims_y dims_x : nat)
    (transform : affine) (mask : image Z) (var : cube float) (t y x : nat)
    (v : float) :
  Rio.raster_mask geometry affine burns rasterio shp dims_y dims_x transform
  = Ok mask →
  at3 var t y x = Some v → y < dims_y → x < dims_x →
  at3 (Masking.apply_mask mask var) t y x
  = Some (if existsb (λ g, burns transform g y x) shp then v else nan).
Proof.
  intros Hmask Hv Hy Hx.
  assert (rasterio = Rio.from_1_4 ∨ shp ≠ []) as Hr.
  { destruct rasterio; [|by left]. right. by intros ->. }
  rewrite raster_mask_ok in Hmask by (done || lia). injection Hmask as <-.
  unfold Masking.apply_mask, at3 in *. rewrite list_lookup_fmap.
  destruct (var !! t) as [img|]; simpl in *; [|done].
  unfold Masking.where_mask. rewrite at2_zip2, Hv.
  unfold at2. rewrite list_lookup_fmap, lookup_seq_lt by done. simpl.
  rewrite list_lookup_fmap, lookup_seq_lt by done. simpl.
  by destruct (existsb _ shp).
Qed.

(** A one-pixel grid covered by one polygon. *)
Lemma raster_mask_applied_witness :
  let burns (_ : unit) (_ : unit) (_ _ : nat) := true in
  let one := of_int 53 1024 1 in
  Rio.raster_mask unit unit burns Rio.from_1_4 [()] 1 1 () = Ok [[1%Z]]
  ∧ at3 [[[one]]] 0 0 0 = Some one
  ∧ at3 (Masking.apply_mask [[1%Z]] [[[one]]]) 0 0 0 = Some one.
Proof.
  intros burns one.
  split; [reflexivity|]. split; [reflexivity|].
  assert (0 < 1) as H by lia.
  exact (raster_mask_applied unit unit burns Rio.from_1_4 [()] 1 1 ()
           [[1%Z]] [[[one]]] 0 0 0 one eq_refl eq_refl H H).
Defined.

(** ** The smoothed water area *)

Section NonNegative.
Variables prec emax : Z.

Lemma of_int_nonneg z : (0 ≤ z)%Z → nonneg (of_int prec emax z).
Proof. intros Hz. split; [apply of_int_notnan|by apply of_int_sign]. Qed.

Lemma binary_round_notnan s m e :
  isnan (binary_round prec emax s m e) = false.
Proof.
  unfold binary_round. destruct (shl_align _ _ _) as [mz ez].
  by apply binary_round_aux_notnan.
Qed.

Lemma add_nonneg a b :
  nonneg a → nonneg b → nonneg (add prec emax a b).
Proof.
  intros [Na Sa] [Nb Sb].
  destruct a as [sa|sa| |sa ma ea], b as [sb|sb| |sb mb eb]; simpl in *;
    try done; subst; try done.
  destruct (shl_align ma ea (Z.min ea eb)) as [m1 e1].
  destruct (shl_align mb eb (Z.min ea eb)) as [m2 e2]. simpl.
  split; [apply binary_round_notnan|apply binary_round_sign].
Qed.

Lemma div_core_nonneg mx ex my ey :
  (0 ≤ (SFdiv_core_binary prec emax (Z.pos mx) ex (Z.pos my) ey).1.1)%Z.
Proof.
  unfold SFdiv_core_binary.
  set (s := Z.sub (Z.sub ex ey) _).
  set (m' := match s with
             | Z0 => Z.pos mx
             | Zpos _ => Z.shiftl (Z.pos mx) s
             | Zneg _ => Z0
             end).
  assert (0 ≤ m')%Z as Hm.
  { subst m'. destruct s; [lia| |lia]. apply Z.shiftl_nonneg. lia. }
  destruct (Z.div_eucl m' (Z.pos my)) as [q r] eqn:E. simpl.
  assert (q = m' / Z.pos my)%Z as -> by (unfold Z.div; by rewrite E).
  apply Z.div_pos; lia.
Qed.

Lemma true_divide_nonneg a my ey :
  nonneg a → nonneg (true_divide prec emax a (S754_finite false my ey)).
Proof.
  intros [Na Sa]. destruct a as [sa|sa| |sa ma ea]; simpl in *; try done;
    subst; try done.
  pose proof (div_core_nonneg ma ea my ey) as Hq.
  destruct (SFdiv_core_binary _ _ _ _ _ _) as [[mz ez] lz]. simpl in Hq.
  split; [by apply binary_round_aux_notnan|apply binary_round_aux_sign].
Qed.

Lemma multiply_nonneg a my ey :
  nonneg a → nonneg (multiply prec emax a (S754_finite false my ey)).
Proof.
  intros [Na Sa]. destruct a as [sa|sa| |sa ma ea]; simpl in *; try done;
    subst; try done.
  split; [by apply binary_round_aux_notnan|apply binary_round_aux_sign].
Qed.

(** The median of at least one non-negative number is a non-negative
    number, provided 2 is a finite number of the format. *)
Lemma median_nonneg m2 e2 (vs : list float) :
  of_int prec emax 2 = S754_finite false m2 e2 →
  vs ≠ [] → Forall nonneg vs → nonneg (Rolling.median prec emax vs).
Proof.
  intros H2 Hne Hall. unfold Rolling.median.
  pose proof (sort_perm vs) as Hperm.
  assert (Forall nonneg (Rolling.sort vs)) as Hs by by rewrite Hperm.
  assert (length (Rolling.sort vs) ≠ 0) as Hlen.
  { rewrite Hperm. by destruct vs. }
  set (s := Rolling.sort vs) in *.
  assert (length s / 2 < length s) as Hhalf
    by (apply Nat.div_lt; lia).
  assert ((length s - 1) / 2 < length s) as Hlow.
  { assert ((length s - 1) / 2 ≤ length s - 1)
      by (apply Nat.Div0.div_le_upper_bound; lia).
    lia. }
  destruct (lookup_lt_is_Some_2 s _ Hlow) as [low Hl].
  destruct (lookup_lt_is_Some_2 s _ Hhalf) as [high Hh].
  rewrite Hl, Hh, H2. rewrite Forall_lookup in Hs.
  apply true_divide_nonneg. apply add_nonneg; [|by eapply Hs].
  apply add_nonneg; [by apply of_int_nonneg|by eapply Hs].
Qed.

End NonNegative.

Lemma filter_all {A} (P : A → Prop) `{!∀ x, Decision (P x)} (l : list A) :
  Forall P l → filter P l = l.
Proof.
  induction 1 as [|x l Hx _ IH]; [done|]. by rewrite filter_cons_True, IH.
Qed.

(** X9: the 20 m pixels of the notebooks have an area.  On a cube
    without any time step the water-area cell raises an exception: the
    rolling median has no window to take.  Otherwise the smoothed water
    area has one value per time step, and every value is a number that is
    not negative: the rolling median with [min_periods=1] never leaves a
    gap, not even at the two ends of the series. *)
Theorem waterarea_defined_everywhere (mndwi : cube float) :
  ∃ area,
    area_per_pixel 20 = Ok area
    ∧ (mndwi = [] →
       ∃ exc_class, Water.waterarea 53 1024 area mndwi = Raised exc_class)
    ∧ (mndwi ≠ [] →
       ∃ waterarea,
         Water.waterarea 53 1024 area mndwi = Ok waterarea
         ∧ length waterarea = length mndwi
         ∧ Forall (λ a, isnan a = false
                        ∧ less_equal (of_int 53 1024 0) a = true) waterarea).
Proof.
  assert (∃ m e, area_per_pixel 20 = Ok (S754_finite false m e))
    as (m & e & Harea) by (vm_compute; eauto).
  eexists. split; [exact Harea|]. split; [intros ->; by eexists|].
  intros Hne. unfold Water.waterarea.
  set (counts := (λ img, of_int 53 1024 (Water.ds_s2_watercount 53 1024 img))
                   <$> mndwi).
  assert (length counts = length mndwi) as Hlen
    by (unfold counts; by rewrite length_fmap).
  assert (Forall (nonneg) counts) as Hcounts.
  { unfold counts. apply Forall_fmap, Forall_forall. intros img _. simpl.
    apply of_int_nonneg. unfold Water.ds_s2_watercount, Water.count. lia. }
  destruct (rolling_median_ok 53 1024 3 1 counts) as (out & -> & Hrl & Hat);
    [lia|lia|rewrite Hlen; destruct mndwi; [done|simpl; lia]|].
  eexists. split; [done|].
  split; [rewrite length_fmap; congruence|].
  apply Forall_fmap, Forall_lookup. intros i med Hmed. simpl.
  assert (i < length counts) as Hi.
  { rewrite <- Hrl. by eapply lookup_lt_Some. }
  rewrite Hat in Hmed by done. injection Hmed as <-.
  assert (Forall nonneg (centred_window 3 counts i)) as Hwin.
  { unfold centred_window. by apply Forall_take, Forall_drop. }
  assert (centred_window 3 counts i ≠ []) as Hne'.
  { intros E. apply (f_equal length) in E. unfold centred_window in E.
    rewrite length_take, length_drop in E. simpl in E.
    replace (3 `div` 2) with 1 in E by reflexivity. lia. }
  rewrite filter_all by (eapply Forall_impl; [exact Hwin|];
    intros v [Hv _]; unfold notnan; by rewrite Hv).
  rewrite bool_decide_true by (destruct (centred_window 3 counts i);
    [done|simpl; lia]).
  assert (∃ m e, of_int 53 1024 2 = S754_finite false m e) as (m2 & e2 & H2)
    by (vm_compute; eauto).
  destruct (multiply_nonneg 53 1024 _ m e
              (median_nonneg 53 1024 m2 e2 _ H2 Hne' Hwin)) as [Hn Hs].
  split; [done|]. by apply (nonneg_of_sign 53 1024).
Qed.

(** ** Valid and clear counts *)

Lemma sum_row_mono (ra rb : list bool) :
  Forall2 (λ c v, c = true → v = true) ra rb →
  (sum_list (b2z <$> ra) ≤ sum_list (b2z <$> rb))%Z.
Proof.
  induction 1 as [|c v ra rb Hcv _ IH]; [done|].
  change (b2z c + sum_list (b2z <$> ra)
          ≤ b2z v + sum_list (b2z <$> rb))%Z.
  destruct c, v; simpl b2z; try lia; by specialize (Hcv eq_refl).
Qed.

Lemma sum_yx_mono (a b : image bool) :
  Forall2 (Forall2 (λ c v, c = true → v = true)) a b →
  (sum_yx a ≤ sum_yx b)%Z.
Proof.
  unfold sum_yx. induction 1 as [|ra rb a b Hr _ IH]; [done|].
  change (sum_list (b2z <$> ra)
          + sum_list ((λ row, sum_list (b2z <$> row)) <$> a)
          ≤ sum_list (b2z <$> rb)
            + sum_list ((λ row, sum_list (b2z <$> row)) <$> b))%Z.
  pose proof (sum_row_mono ra rb Hr). lia.
Qed.

Lemma at2_Forall2 {A B} (R : A → B → Prop) (a : image A) (b : image B)
    y x u w :
  Forall2 (Forall2 R) a b →
  at2 a y x = Some u → at2 b y x = Some w → R u w.
Proof.
  unfold at2. intros H Ha Hb.
  destruct (a !! y) as [ra|] eqn:Ea; [|done].
  destruct (b !! y) as [rb|] eqn:Eb; [|done]. simpl in *.
  pose proof (Forall2_lookup_lr _ _ _ _ _ _ H Ea Eb) as Hr.
  by apply (Forall2_lookup_lr _ _ _ _ _ _ Hr Ha Hb).
Qed.

(** X10: if every clear pixel is a valid pixel, then at every date of the
    table the clear count is at most the valid count, and at every pixel
    the number of clear observations is at most the number of valid ones
    (so the percentage is computed from a count that does not exceed its
    denominator). *)
Theorem clear_counts_below_valid_counts (clear_mask valid_mask : cube bool)
    (shape_y shape_x : nat) :
  Forall2 (Forall2 (Forall2 (λ c v, c = true → v = true)))
          clear_mask valid_mask →
  Forall2 Z.le (CloudTable.count clear_mask) (CloudTable.count valid_mask)
  ∧ ∀ y x c v,
      at2 (sum_time (mkDataArray shape_y shape_x clear_mask)) y x = Some c →
      at2 (sum_time (mkDataArray shape_y shape_x valid_mask)) y x = Some v →
      (c ≤ v)%Z.
Proof.
  intros H. split.
  - unfold CloudTable.count. induction H as [|a b cs vs Hab _ IH];
      [constructor|].
    rewrite !fmap_cons. constructor; [by apply sum_yx_mono|done].
  - intros y x. unfold sum_time. simpl.
    induction H as [|a b cs vs Hab _ IH]; intros c v; simpl.
    + intros Hc Hv. rewrite Hc in Hv. injection Hv as <-. lia.
    + rewrite !at2_zip2, !at2_map2.
      destruct (at2 a y x) as [bc|] eqn:Ea; simpl; [|done].
      destruct (at2 b y x) as [bv|] eqn:Eb; simpl; [|by destruct (at2 _ y x)].
      destruct (at2 (foldr _ _ cs) y x) as [c'|]; simpl; [|done].
      destruct (at2 (foldr _ _ vs) y x) as [v'|]; simpl; [|done].
      intros [= <-] [= <-]. specialize (IH c' v' eq_refl eq_refl).
      pose proof (at2_Forall2 _ a b y x bc bv Hab Ea Eb) as Hcv.
      destruct bc, bv; simpl b2z; try lia; by specialize (Hcv eq_refl).
Qed.

(** Two dates of a one-pixel grid, clear only where valid. *)
Lemma clear_counts_below_valid_counts_witness :
  let clear_mask := [[[true]]; [[false]]] in
  let valid_mask := [[[true]]; [[true]]] in
  Forall2 (Forall2 (Forall2 (λ c v, c = true → v = true)))
          clear_mask valid_mask
  ∧ Forall2 Z.le (CloudTable.count clear_mask) (CloudTable.count valid_mask).
Proof.
  intros clear_mask valid_mask.
  assert (Forall2 (Forall2 (Forall2 (λ c v, c = true → v = true)))
            clear_mask valid_mask) as H by (repeat constructor).
  split; [exact H|].
  exact (proj1 (clear_counts_below_valid_counts clear_mask valid_mask 1 1 H)).
Defined.

(** X11: a pixel without any valid observation has a percentage that is
    not equal to 0 (it is NaN), so it is never among the pixels that
    [(percentage_clear == 0).sum()] reports as having no clear data; that
    number is the number of pixels whose percentage compares equal to 0. *)
Theorem never_valid_pixel_not_reported
    (clear_mask valid_mask : DataArray bool) (y x : nat) (c : Z) :
  at2 (sum_time clear_mask) y x = Some c →
  at2 (sum_time valid_mask) y x = Some 0%Z →
  (∃ p, at2 (CloudStatistics.percentage_clear 53 1024
               clear_mask valid_mask) y x = Some p
        ∧ equal p (of_int 53 1024 0) = false)
  ∧ ∀ img : image float,
      CloudTable.no_clear_data 53 1024 img
      = Z.of_nat (length (filter (λ p, equal p (of_int 53 1024 0) = true)
                                 (concat img))).
Proof.
  intros Hc Hv. split.
  - rewrite percentage_clear_at, Hc, Hv. simpl. eexists. split; [done|].
    rewrite guard_percentage_zero_valid; [done|done|].
    by eapply sum_time_nonneg.
  - intros img. unfold CloudTable.no_clear_data.
    induction (concat img) as [|p l IH]; [done|].
    rewrite fmap_cons.
    change (b2z (equal p (of_int 53 1024 0))
            + sum_list ((λ p, b2z (equal p (of_int 53 1024 0))) <$> l)
            = Z.of_nat (length (filter
                (λ p, equal p (of_int 53 1024 0) = true) (p :: l))))%Z.
    rewrite IH. destruct (equal p (of_int 53 1024 0)) eqn:E.
    + rewrite filter_cons_True by done. simpl length. simpl b2z. lia.
    + rewrite filter_cons_False by (by rewrite E). simpl b2z. lia.
Qed.

(** A pixel that is once clear and never valid. *)
Lemma never_valid_pixel_not_reported_witness :
  let clear_mask := mkDataArray 1 1 [[[true]]; [[false]]] in
  let valid_mask := mkDataArray 1 1 [[[false]]; [[false]]] in
  at2 (sum_time clear_mask) 0 0 = Some 1%Z
  ∧ at2 (sum_time valid_mask) 0 0 = Some 0%Z
  ∧ ∃ p, at2 (CloudStatistics.percentage_clear 53 1024
                clear_mask valid_mask) 0 0 = Some p
         ∧ equal p (of_int 53 1024 0) = false.
Proof.
  intros clear_mask valid_mask.
  split; [reflexivity|]. split; [reflexivity|].
  exact (proj1 (never_valid_pixel_not_reported clear_mask valid_mask 0 0 1%Z
                  eq_refl eq_refl)).
Defined.

(** ** The order of the numbers *)

Lemma SFcompare_key (x y : float) :
  isnan x = false → isnan y = false →
  ∃ c, SFcompare x y = Some c
       ∧ (c = Lt ↔ key_lt (order_key x) (order_key y))
       ∧ (c = Gt ↔ key_lt (order_key y) (order_key x)).
Proof.
  intros Hx Hy. unfold key_lt.
  destruct x as [sx|sx| |sx mx ex], y as [sy|sy| |sy my ey]; try done;
    simpl; try (destruct sx); try (destruct sy); simpl;
    try (destruct (Z.compare_spec ex ey) as [He|He|He];
         [fold (Pos.compare mx my);
          destruct (Pos.compare_spec mx my) as [Hm|Hm|Hm]|..]; simpl);
    eexists; (split; [reflexivity|]); split; split; intros H;
    first [done | lia | (exfalso; lia)].
Qed.

Lemma less_equal_key (x y : float) :
  isnan x = false → isnan y = false →
  less_equal x y = true ↔ ¬ key_lt (order_key y) (order_key x).
Proof.
  intros Hx Hy. unfold less_equal, SFleb.
  destruct (SFcompare_key x y Hx Hy) as (c & -> & HLt & HGt).
  destruct c; split; try done.
  - intros _ H. by apply HGt in H.
  - intros _ H. by apply HGt in H.
  - intros H. exfalso. apply H. by apply HGt.
Qed.

(** ** Dates of the extreme NDCI *)

Lemma argmin_from_scan bi b i xs :
  Extremes.argmin_from bi b i xs
  = scan_from (λ x best, negb (greater_equal x best)) bi b i xs.
Proof.
  revert bi b i. induction xs as [|x xs IH]; intros bi b i; simpl; [done|].
  by rewrite !IH.
Qed.

Lemma argmax_from_scan bi b i xs :
  Extremes.argmax_from bi b i xs
  = scan_from (λ x best, negb (less_equal x best)) bi b i xs.
Proof.
  revert bi b i. induction xs as [|x xs IH]; intros bi b i; simpl; [done|].
  by rewrite !IH.
Qed.

Section Scan.
Variable better : float → float → bool.
Variable R : float → float → Prop.
Hypothesis better_R :
  ∀ x b, isnan x = false → isnan b = false → better x b = true ↔ R x b.
Hypothesis R_irrefl : ∀ x, ¬ R x x.
Hypothesis R_asym : ∀ x y, R x y → ¬ R y x.
Hypothesis R_below : ∀ x b y, R x b → ¬ R y b → R x y.

(** The scan ends on the first value that no other value beats. *)
Lemma scan_from_spec xs pre bi b :
  Forall (λ v, isnan v = false) (pre ++ xs) →
  pre !! bi = Some b →
  (∀ j y, pre !! j = Some y → ¬ R y b) →
  (∀ j y, j < bi → pre !! j = Some y → R b y) →
  ∃ v, (pre ++ xs) !! scan_from better bi b (length pre) xs = Some v
       ∧ (∀ j y, (pre ++ xs) !! j = Some y → ¬ R y v)
       ∧ (∀ j y, j < scan_from better bi b (length pre) xs →
                 (pre ++ xs) !! j = Some y → R v y).
Proof using better_R R_irrefl R_asym R_below.
  revert pre bi b. induction xs as [|x xs IH]; intros pre bi b Hnan Hb Hmin
    Hfirst; simpl.
  - rewrite app_nil_r. exists b. done.
  - assert (isnan b = false) as Nb.
    { rewrite Forall_forall in Hnan. apply Hnan.
      apply elem_of_app. left. by eapply list_elem_of_lookup_2. }
    assert (isnan x = false) as Nx.
    { rewrite Forall_forall in Hnan. apply Hnan.
      apply elem_of_app. right. by left. }
    rewrite Nb.
    assert (pre ++ x :: xs = (pre ++ [x]) ++ xs) as E
      by by rewrite <- app_assoc.
    assert (S (length pre) = length (pre ++ [x])) as El
      by (rewrite length_app; simpl; lia).
    rewrite E, El. rewrite E in Hnan.
    destruct (better x b) eqn:Hx.
    + apply (better_R x b Nx Nb) in Hx.
      apply IH; [done| | |].
      * by rewrite lookup_app_r, Nat.sub_diag.
      * intros j y Hy. apply lookup_app_Some in Hy as [Hy|[Hj Hy]].
        -- intros Hyx. apply (Hmin j y Hy). by eapply R_below, R_asym.
        -- destruct (j - length pre) as [|k]; [|done].
           injection Hy as <-. apply R_irrefl.
      * intros j y Hj Hy. rewrite lookup_app_l in Hy by done.
        eapply R_below; [done|by eapply Hmin].
    + assert (¬ R x b) as Hxb.
      { intros H. apply (better_R x b Nx Nb) in H. congruence. }
      apply IH; [done| | |].
      * apply lookup_app_l_Some. done.
      * intros j y Hy. apply lookup_app_Some in Hy as [Hy|[Hj Hy]].
        -- by eapply Hmin.
        -- destruct (j - length pre) as [|k]; [|done]. by injection Hy as <-.
      * intros j y Hj Hy. apply (Hfirst j y Hj).
        rewrite lookup_app_l in Hy; [done|].
        apply lookup_lt_Some in Hb. lia.
Qed.

End Scan.

Lemma key_lt_cases (a b : Z * Z * Z) :
  (key_lt a b ∨ a = b ∨ key_lt b a)
  ∧ (key_lt a b → ¬ key_lt b a) ∧ ¬ key_lt a a.
Proof.
  destruct a as [[a1 a2] a3], b as [[b1 b2] b3]. unfold key_lt. simpl.
  split_and!; [|lia|lia].
  destruct (decide (a1 = b1)) as [->|]; [|lia].
  destruct (decide (a2 = b2)) as [->|]; [|lia].
  destruct (decide (a3 = b3)) as [->|]; [|lia]. by right; left.
Qed.

Lemma key_lt_irrefl (a : Z * Z * Z) : ¬ key_lt a a.
Proof. exact (proj2 (proj2 (key_lt_cases a a))). Qed.

Lemma key_lt_asym (a b : Z * Z * Z) : key_lt a b → ¬ key_lt b a.
Proof. exact (proj1 (proj2 (key_lt_cases a b))). Qed.

Lemma key_lt_below (x b y : Z * Z * Z) :
  key_lt x b → ¬ key_lt y b → key_lt x y.
Proof.
  destruct x as [[x1 x2] x3], b as [[b1 b2] b3], y as [[y1 y2] y3].
  unfold key_lt. simpl. lia.
Qed.

Lemma replace_nan_lookup (fill : float) (a : list float) j :
  ((λ x, if isnan x then fill else x) <$> a) !! j
  = (λ x, if isnan x then fill else x) <$> a !! j.
Proof. apply list_lookup_fmap. Qed.

Lemma key_lt_above (x b y : Z * Z * Z) :
  key_lt b x → ¬ key_lt b y → key_lt y x.
Proof.
  destruct x as [[x1 x2] x3], b as [[b1 b2] b3], y as [[y1 y2] y3].
  unfold key_lt. simpl. lia.
Qed.

Lemma forallb_isnan (a : list float) :
  forallb isnan a = true ↔ Forall (λ x, isnan x = true) a.
Proof.
  induction a as [|x a IH]; simpl; [by split; [constructor|]|].
  rewrite andb_true_iff, Forall_cons, IH. done.
Qed.

Lemma not_all_nan (a : list float) :
  Exists (λ x, isnan x = false) a → forallb isnan a = false.
Proof.
  intros H. apply not_true_iff_false. rewrite forallb_isnan.
  intros Hall. apply Exists_exists in H as (x & Hx & Hn).
  rewrite Forall_forall in Hall. specialize (Hall x Hx). congruence.
Qed.

Lemma replaced_notnan (fill : float) (a : list float) :
  isnan fill = false →
  Forall (λ v, isnan v = false) ((λ x, if isnan x then fill else x) <$> a).
Proof.
  intros Hf. apply Forall_fmap, Forall_forall. intros x _. simpl.
  by destruct (isnan x) eqn:E.
Qed.

Lemma not_less_equal_key (q p : float) :
  isnan q = false → isnan p = false →
  negb (less_equal q p) = true ↔ key_lt (order_key p) (order_key q).
Proof.
  intros Hq Hp. pose proof (less_equal_key q p Hq Hp) as Hle.
  destruct (key_lt_cases (order_key p) (order_key q))
    as (Htri & Hasym & _).
  destruct (key_lt_cases (order_key q) (order_key p)) as (_ & Hasym' & _).
  destruct (key_lt_cases (order_key q) (order_key q)) as (_ & _ & Hirr).
  destruct (less_equal q p); simpl; split; try done.
  - intros H. by apply Hle in H.
  - intros _. destruct Htri as [?|[E|H]]; [done| |].
    + exfalso. assert (false = true) as Hf; [|done].
      apply Hle. by rewrite E.
    + exfalso. assert (false = true) as Hf; [|done].
      apply Hle. by apply Hasym'.
Qed.

Lemma nanargmin_spec (a : list float) :
  Exists (λ x, isnan x = false) a →
  ∃ r u, Extremes.nanargmin a = Ok r ∧ a !! r = Some u
    ∧ (∀ j y, a !! j = Some y → isnan y = false →
              less_equal (if isnan u then pinf else u) y = true)
    ∧ (∀ j y, j < r → a !! j = Some y →
              less_equal y (if isnan u then pinf else u) = false).
Proof.
  intros Hex. unfold Extremes.nanargmin. rewrite (not_all_nan a Hex).
  pose proof (replaced_notnan pinf a eq_refl) as Hnn.
  pose proof (replace_nan_lookup pinf a) as Hlk.
  destruct ((λ x, if isnan x then pinf else x) <$> a) as [|x xs] eqn:Ea.
  { destruct a; [by apply Exists_nil in Hex|done]. }
  rewrite argmin_from_scan.
  destruct (scan_from_spec (λ x best, negb (greater_equal x best))
              (λ p q, key_lt (order_key p) (order_key q))) with
    (xs := xs) (pre := [x]) (bi := 0) (b := x) as (v & Hv & Hmin & Hfirst).
  - intros p q Hp Hq. by apply not_less_equal_key.
  - intros p. apply key_lt_irrefl.
  - intros p q. apply key_lt_asym.
  - intros p b q. apply key_lt_below.
  - done.
  - done.
  - intros [|j] y; [|done]. intros [= <-]. apply key_lt_irrefl.
  - intros j y Hj. lia.
  - simpl in Hv, Hmin, Hfirst.
    set (r := scan_from _ 0 x 1 xs) in *.
    rewrite Hlk in Hv. destruct (a !! r) as [u|] eqn:Eu; [|done].
    injection Hv as Hv. exists r, u. rewrite Hv.
    assert (isnan v = false) as Nv.
    { rewrite <- Hv. by destruct (isnan u) eqn:E. }
    split; [done|]. split; [done|]. split.
    + intros j y Hy Ny. apply less_equal_key; [done..|].
      apply (Hmin j). by rewrite Hlk, Hy; simpl; rewrite Ny.
    + intros j y Hj Hy. destruct (isnan y) eqn:Ny.
      * by destruct y.
      * apply not_true_iff_false. intros Hle.
        apply less_equal_key in Hle; [|done..]. apply Hle.
        apply (Hfirst j); [done|]. by rewrite Hlk, Hy; simpl; rewrite Ny.
Qed.

Lemma nanargmax_spec (a : list float) :
  Exists (λ x, isnan x = false) a →
  ∃ r u, Extremes.nanargmax a = Ok r ∧ a !! r = Some u
    ∧ (∀ j y, a !! j = Some y → isnan y = false →
              less_equal y (if isnan u then ninf else u) = true)
    ∧ (∀ j y, j < r → a !! j = Some y →
              less_equal (if isnan u then ninf else u) y = false).
Proof.
  intros Hex. unfold Extremes.nanargmax. rewrite (not_all_nan a Hex).
  pose proof (replaced_notnan ninf a eq_refl) as Hnn.
  pose proof (replace_nan_lookup ninf a) as Hlk.
  destruct ((λ x, if isnan x then ninf else x) <$> a) as [|x xs] eqn:Ea.
  { destruct a; [by apply Exists_nil in Hex|done]. }
  rewrite argmax_from_scan.
  destruct (scan_from_spec (λ x best, negb (less_equal x best))
              (λ p q, key_lt (order_key q) (order_key p))) with
    (xs := xs) (pre := [x]) (bi := 0) (b := x) as (v & Hv & Hmax & Hfirst).
  - intros p q Hp Hq. by apply not_less_equal_key.
  - intros p. apply key_lt_irrefl.
  - intros p q. apply key_lt_asym.
  - intros p b q. apply key_lt_above.
  - done.
  - done.
  - intros [|j] y; [|done]. intros [= <-]. apply key_lt_irrefl.
  - intros j y Hj. lia.
  - simpl in Hv, Hmax, Hfirst.
    set (r := scan_from _ 0 x 1 xs) in *.
    rewrite Hlk in Hv. destruct (a !! r) as [u|] eqn:Eu; [|done].
    injection Hv as Hv. exists r, u. rewrite Hv.
    assert (isnan v = false) as Nv.
    { rewrite <- Hv. by destruct (isnan u) eqn:E. }
    split; [done|]. split; [done|]. split.
    + intros j y Hy Ny. apply less_equal_key; [done..|].
      apply (Hmax j). by rewrite Hlk, Hy; simpl; rewrite Ny.
    + intros j y Hj Hy. destruct (isnan y) eqn:Ny.
      * destruct y; try done. by destruct v.
      * apply not_true_iff_false. intros Hle.
        apply less_equal_key in Hle; [|done..]. apply Hle.
        apply (Hfirst j); [done|]. by rewrite Hlk, Hy; simpl; rewrite Ny.
Qed.

Lemma nanarg_all_nan (a : list float) :
  Forall (λ x, isnan x = true) a →
  Extremes.nanargmin a = Raised "ValueError"
  ∧ Extremes.nanargmax a = Raised "ValueError".
Proof.
  intros H. apply forallb_isnan in H.
  unfold Extremes.nanargmin, Extremes.nanargmax. by rewrite H.
Qed.

Lemma pinf_less_equal (y : float) : less_equal pinf y = true → y = pinf.
Proof. by destruct y as [[]|[]| |[] ? ?]. Qed.

Lemma less_equal_ninf (y : float) : less_equal y ninf = true → y = ninf.
Proof. by destruct y as [[]|[]| |[] ? ?]. Qed.

(** X12: the date of the minimum average NDCI.  When every average is NaN
    (or there is none) the cell raises [ValueError]; otherwise, on dates
    and averages of one length, the look-up of the date never fails and
    returns the date at the first position of the least of the averages
    read with NaN as +infinity: that value is at most every average that
    is a number, and no earlier position is as low.  The position holds a
    number whenever some average is a number other than +infinity; it can
    hold a NaN only when +infinity is the only number among the averages,
    as position 0 of [NaN, +infinity]. *)
Theorem min_ndci_date_first_minimum (ndci_dates : list Z)
    (average_ndci : list float) :
  length ndci_dates = length average_ndci →
  (Forall (λ x, isnan x = true) average_ndci →
     Extremes.min_ndci_date ndci_dates average_ndci = Raised "ValueError")
  ∧ (Exists (λ x, isnan x = false) average_ndci →
     ∃ r u d,
       Extremes.nanargmin average_ndci = Ok r
       ∧ average_ndci !! r = Some u
       ∧ ndci_dates !! r = Some d
       ∧ Extremes.min_ndci_date ndci_dates average_ndci = Ok d
       ∧ (∀ j y, average_ndci !! j = Some y → isnan y = false →
                 less_equal (if isnan u then pinf else u) y = true)
       ∧ (∀ j y, j < r → average_ndci !! j = Some y →
                 less_equal y (if isnan u then pinf else u) = false)
       ∧ ((∃ y, y ∈ average_ndci ∧ isnan y = false ∧ y ≠ pinf) →
          isnan u = false))
  ∧ Extremes.nanargmin [nan; pinf] = Ok 0.
Proof.
  intros Hlen. split_and!.
  - intros Hall. unfold Extremes.min_ndci_date.
    by rewrite (proj1 (nanarg_all_nan average_ndci Hall)).
  - intros Hex.
    destruct (nanargmin_spec average_ndci Hex)
      as (r & u & Hr & Hu & Hmin & Hfirst).
    destruct (lookup_lt_is_Some_2 ndci_dates r) as [d Hd].
    { rewrite Hlen. by eapply lookup_lt_Some. }
    exists r, u, d. unfold Extremes.min_ndci_date. rewrite Hr. simpl.
    rewrite Hd. split_and!; try done.
    intros (y & Hy & Ny & Hinf). destruct (isnan u) eqn:Nu; [|done].
    apply list_elem_of_lookup in Hy as [j Hj].
    exfalso. by apply Hinf, pinf_less_equal, (Hmin j).
  - done.
Qed.

(** Three averages, the first missing: the minimum is at position 2. *)
Lemma min_ndci_date_first_minimum_witness :
  let r := ratio 53 1024 in
  let averages := [nan; r 1 4; r 1 8]%Z in
  length [10; 20; 30]%Z = length averages
  ∧ Exists (λ x, isnan x = false) averages
  ∧ ∃ d, Extremes.min_ndci_date [10; 20; 30]%Z averages = Ok d
         ∧ [10; 20; 30]%Z !! 2 = Some d.
Proof.
  intros r averages.
  assert (Exists (λ x, isnan x = false) averages) as Hex
    by (right; left; reflexivity).
  split; [reflexivity|]. split; [exact Hex|].
  destruct (proj1 (proj2 (min_ndci_date_first_minimum [10; 20; 30]%Z
                            averages eq_refl)) Hex)
    as (i & u & d & Hi & _ & Hd & Hm & _).
  exists d. split; [exact Hm|].
  assert (i = 2) as <-; [|exact Hd].
  assert (Extremes.nanargmin averages = Ok 2) as H2 by (by vm_compute).
  rewrite H2 in Hi. by injection Hi.
Defined.

(** X13: the date of the maximum average NDCI.  When every average is NaN
    (or there is none) the cell raises [ValueError]; otherwise, on dates
    and averages of one length, the look-up of the date never fails and
    returns the date at the first position of the greatest of the averages
    read with NaN as -infinity: that value is at least every average that
    is a number, and no earlier position is as high.  The position holds a
    number whenever some average is a number other than -infinity; it can
    hold a NaN only when -infinity is the only number among the averages,
    as position 0 of [NaN, -infinity]. *)
Theorem max_ndci_date_first_maximum (ndci_dates : list Z)
    (average_ndci : list float) :
  length ndci_dates = length average_ndci →
  (Forall (λ x, isnan x = true) average_ndci →
     Extremes.max_ndci_date ndci_dates average_ndci = Raised "ValueError")
  ∧ (Exists (λ x, isnan x = false) average_ndci →
     ∃ r u d,
       Extremes.nanargmax average_ndci = Ok r
       ∧ average_ndci !! r = Some u
       ∧ ndci_dates !! r = Some d
       ∧ Extremes.max_ndci_date ndci_dates average_ndci = Ok d
       ∧ (∀ j y, average_ndci !! j = Some y → isnan y = false →
                 less_equal y (if isnan u then ninf else u) = true)
       ∧ (∀ j y, j < r → average_ndci !! j = Some y →
                 less_equal (if isnan u then ninf else u) y = false)
       ∧ ((∃ y, y ∈ average_ndci ∧ isnan y = false ∧ y ≠ ninf) →
          isnan u = false))
  ∧ Extremes.nanargmax [nan; ninf] = Ok 0.
Proof.
  intros Hlen. split_and!.
  - intros Hall. unfold Extremes.max_ndci_date.
    by rewrite (proj2 (nanarg_all_nan average_ndci Hall)).
  - intros Hex.
    destruct (nanargmax_spec average_ndci Hex)
      as (r & u & Hr & Hu & Hmax & Hfirst).
    destruct (lookup_lt_is_Some_2 ndci_dates r) as [d Hd].
    { rewrite Hlen. by eapply lookup_lt_Some. }
    exists r, u, d. unfold Extremes.max_ndci_date. rewrite Hr. simpl.
    rewrite Hd. split_and!; try done.
    intros (y & Hy & Ny & Hinf). destruct (isnan u) eqn:Nu; [|done].
    apply list_elem_of_lookup in Hy as [j Hj].
    exfalso. by apply Hinf, less_equal_ninf, (Hmax j).
  - done.
Qed.

(** Three averages, the first missing: the maximum is at position 1. *)
Lemma max_ndci_date_first_maximum_witness :
  let r := ratio 53 1024 in
  let averages := [nan; r 1 4; r 1 8]%Z in
  length [10; 20; 30]%Z = length averages
  ∧ Exists (λ x, isnan x = false) averages
  ∧ ∃ d, Extremes.max_ndci_date [10; 20; 30]%Z averages = Ok d
         ∧ [10; 20; 30]%Z !! 1 = Some d.
Proof.
  intros r averages.
  assert (Exists (λ x, isnan x = false) averages) as Hex
    by (right; left; reflexivity).
  split; [reflexivity|]. split; [exact Hex|].
  destruct (proj1 (proj2 (max_ndci_date_first_maximum [10; 20; 30]%Z
                            averages eq_refl)) Hex)
    as (i & u & d & Hi & _ & Hd & Hm & _).
  exists d. split; [exact Hm|].
  assert (i = 1) as <-; [|exact Hd].
  assert (Extremes.nanargmax averages = Ok 1) as H1 by (by vm_compute).
  rewrite H1 in Hi. by injection Hi.
Defined.

(** ** The threshold of the time-step filter *)

Lemma less_equal_trans (a b c : float) :
  less_equal a b = true → less_equal b c = true → less_equal a c = true.
Proof.
  intros Hab Hbc.
  assert (isnan a = false ∧ isnan b = false ∧ isnan c = false)
    as (Na & Nb & Nc).
  { unfold less_equal, SFleb in Hab, Hbc.
    destruct a, b, c; simpl in Hab, Hbc; done. }
  apply less_equal_key in Hab; [|done..].
  apply less_equal_key in Hbc; [|done..].
  apply less_equal_key; [done..|].
  intros Hca. apply Hbc. by eapply key_lt_below.
Qed.

(** X14: a lower threshold keeps at least the same time steps: every time
    step that passes the filter with a threshold passes it with any
    threshold that is less than or equal to it (what is kept at 0.6 is
    kept at 0.2). *)
Theorem keep_monotone_in_threshold (prec emax : Z) (low high : float)
    (good_pixel_mask : DataArray bool) (t : nat) :
  less_equal low high = true →
  t ∈ true_positions 0 (Cleaning.keep prec emax high good_pixel_mask) →
  t ∈ true_positions 0 (Cleaning.keep prec emax low good_pixel_mask).
Proof.
  intros Hle. rewrite !elem_of_true_positions, !Nat.sub_0_r.
  unfold Cleaning.keep. rewrite !list_lookup_fmap.
  destruct (Cleaning.data_perc prec emax good_pixel_mask !! t) as [p|];
    simpl; [|done].
  intros [_ [= H]]. split; [lia|]. f_equal.
  unfold greater_equal in *. by eapply less_equal_trans.
Qed.

(** The thresholds of the two notebooks on a two-step mask. *)
Lemma keep_monotone_in_threshold_witness :
  let mask := mkDataArray 1 2 [[[true; true]]; [[false; false]]] in
  less_equal (ratio 53 1024 2 10) (ratio 53 1024 6 10) = true
  ∧ 0 ∈ true_positions 0 (Cleaning.keep 53 1024 (ratio 53 1024 6 10) mask)
  ∧ 0 ∈ true_positions 0 (Cleaning.keep 53 1024 (ratio 53 1024 2 10) mask).
Proof.
  intros mask.
  assert (less_equal (ratio 53 1024 2 10) (ratio 53 1024 6 10) = true)
    as Hle by (by vm_compute).
  assert (0 ∈ true_positions 0
            (Cleaning.keep 53 1024 (ratio 53 1024 6 10) mask)) as Hin.
  { apply elem_of_true_positions. split; [lia|]. by vm_compute. }
  split; [exact Hle|]. split; [exact Hin|].
  exact (keep_monotone_in_threshold 53 1024 _ _ mask 0 Hle Hin).
Defined.

(** ** Time steps without water *)

Lemma elem_of_concat_zip2_pair {A B} (a : image A) (b : image B) p :
  p ∈ concat (zip2 pair a b) → p.1 ∈ concat a.
Proof.
  unfold zip2. revert b. induction a as [|ra a IH]; intros [|rb b]; simpl;
    try (by intros ?%elem_of_nil).
  rewrite !elem_of_app. intros [H|H]; [left|right; by eapply IH].
  clear -H. revert rb H. induction ra as [|u ra IH]; intros [|v rb]; simpl;
    try (by intros ?%elem_of_nil).
  rewrite !elem_of_cons. intros [->|H]; [by left|right; by eapply IH].
Qed.

Lemma average_without_water (prec emax : Z) (np_sum : list float → float)
    (mndwi ndci : image float) :
  summation prec emax np_sum →
  Water.ds_s2_watercount prec emax mndwi = 0%Z →
  Water.average_ndci prec emax np_sum mndwi ndci = nan.
Proof.
  intros Hsum. unfold Water.ds_s2_watercount, Water.count, Water.ds_s2_water.
  rewrite concat_zip2_diag, watercount_filter. intros Hzero.
  assert (filter (λ m, greater m (of_int prec emax 0) = true) (concat mndwi)
          = []) as Hnone.
  { apply length_zero_iff_nil. lia. }
  apply average_ndci_no_contribution; [done|].
  apply filter_none, Forall_forall. intros p Hp [Hg _].
  apply elem_of_concat_zip2_pair in Hp.
  assert (p.1 ∈ filter (λ m, greater m (of_int prec emax 0) = true)
                       (concat mndwi)) as Hin
    by by apply list_elem_of_filter.
  rewrite Hnone in Hin. by apply elem_of_nil in Hin.
Qed.

(** X15: whatever the order in which the library adds, the water count of
    a time slice lies between 0 and the number of its pixels; a time slice
    without any water pixel has the average NDCI NaN; and when no time
    slice has a water pixel, the cell that looks up the dates of the
    minimum and maximum average NDCI raises [ValueError]. *)
Theorem no_water_no_extreme_dates (prec emax : Z)
    (np_sum : list float → float) (ndci_dates : list Z)
    (mndwi ndci : cube float) :
  summation prec emax np_sum →
  Forall (λ c, (0 ≤ c)%Z) (Series.watercount prec emax mndwi)
  ∧ (∀ t img c, mndwi !! t = Some img →
       Series.watercount prec emax mndwi !! t = Some c →
       (c ≤ Z.of_nat (length (concat img)))%Z)
  ∧ (∀ t a, Series.watercount prec emax mndwi !! t = Some 0%Z →
       Series.average_ndci prec emax np_sum mndwi ndci !! t = Some a →
       a = nan)
  ∧ (Forall (λ c, c = 0%Z) (Series.watercount prec emax mndwi) →
     Extremes.min_ndci_date ndci_dates
       (Series.average_ndci prec emax np_sum mndwi ndci)
     = Raised "ValueError"
     ∧ Extremes.max_ndci_date ndci_dates
         (Series.average_ndci prec emax np_sum mndwi ndci)
       = Raised "ValueError").
Proof.
  intros Hsum.
  assert (∀ t a, Series.watercount prec emax mndwi !! t = Some 0%Z →
            Series.average_ndci prec emax np_sum mndwi ndci !! t = Some a →
            a = nan)
    as Hnan.
  { intros t a. unfold Series.watercount, Series.average_ndci.
    rewrite list_lookup_fmap, lookup_zip_with.
    destruct (mndwi !! t) as [m|]; simpl; [|done].
    destruct (ndci !! t) as [c|]; simpl; [|done].
    intros [= Hz] [= <-]. by apply average_without_water. }
  split_and!.
  - unfold Series.watercount. apply Forall_fmap, Forall_forall.
    intros img _. simpl. unfold Water.ds_s2_watercount, Water.count. lia.
  - intros t img c Himg. unfold Series.watercount.
    rewrite list_lookup_fmap, Himg. simpl. intros [= <-].
    unfold Water.ds_s2_watercount, Water.count, Water.ds_s2_water.
    rewrite concat_zip2_diag, watercount_filter.
    apply inj_le, length_filter.
  - exact Hnan.
  - intros Hzero.
    assert (Forall (λ x, isnan x = true)
              (Series.average_ndci prec emax np_sum mndwi ndci)) as Hall.
    { apply Forall_lookup. intros t a Ha.
      assert (t < length (Series.watercount prec emax mndwi)) as Ht.
      { apply lookup_lt_Some in Ha. unfold Series.average_ndci in Ha.
        rewrite length_zip_with in Ha. unfold Series.watercount.
        rewrite length_fmap. lia. }
      destruct (lookup_lt_is_Some_2 _ _ Ht) as [c Hc].
      rewrite Forall_lookup in Hzero. pose proof (Hzero t c Hc) as ->.
      by rewrite (Hnan t a Hc Ha). }
    unfold Extremes.min_ndci_date, Extremes.max_ndci_date.
    destruct (nanarg_all_nan _ Hall) as [-> ->]. done.
Qed.

(** One time slice of two pixels without water, summed in their order. *)
Lemma no_water_no_extreme_dates_witness :
  let r := ratio 53 1024 in
  let mndwi := [[[r (-1) 2; nan]]]%Z in
  let ndci := [[[r 1 4; r 3 4]]]%Z in
  summation 53 1024 (sum_in_order 53 1024)
  ∧ Series.watercount 53 1024 mndwi = [0%Z]
  ∧ Extremes.min_ndci_date [10%Z]
      (Series.average_ndci 53 1024 (sum_in_order 53 1024) mndwi ndci)
    = Raised "ValueError".
Proof.
  intros r mndwi ndci.
  pose proof (sum_in_order_summation 53 1024) as Hsum.
  assert (Series.watercount 53 1024 mndwi = [0%Z]) as Hcount
    by (by vm_compute).
  split; [exact Hsum|]. split; [exact Hcount|].
  destruct (no_water_no_extreme_dates 53 1024 (sum_in_order 53 1024)
              [10%Z] mndwi ndci Hsum) as (_ & _ & _ & Hraise).
  apply Hraise. rewrite Hcount. by apply Forall_singleton.
Defined.
